(** * Drowsiness detector: the frame loop, the eye aspect ratio and the alarm

    A shallow embedding of [drowsiness_detector.py].

    - the frame loop: the per-frame state machine of the module's top-level
      [while True] loop (lines 323-394) over the globals [COUNTER],
      [ALARM_ON] and [ALARM_THREAD], together with the alarm threads it
      starts.
    - the eye aspect ratio: [calculate_eye_ratio] (lines 231-262) over the reals.
    - the alarm: [check_audio_library], [play_audio_file] and
      [trigger_continuous_alarm] (lines 46-229) in a state-and-exception
      monad, the outcome of every external call and of every [print] being
      given by an oracle.
    - the loop around the frames and the shutdown (lines 312-423), the
      ratio of a face (lines 326-330) and [extract_eye_coordinates]
      (lines 265-278). *)

From Stdlib Require Import String Ascii.
From Stdlib Require Import List Arith Lia Bool ZArith QArith.
From Stdlib Require Import Reals Lra.
Import ListNotations.

Local Open Scope nat_scope.

(** ** The frame loop *)

(** [ear < EYE_THRESHOLD] on the numbers of the frame loop.  The eye aspect
    ratio of a frame is a rational here: the loop only compares it with the
    threshold, and the decimal literals of the source are rationals. *)
Definition Qltb (a b : Q) : bool :=
  (Qnum a * QDen b <? Qnum b * QDen a)%Z.

(** A thread started by the frame loop: it runs [trigger_continuous_alarm]
    until it reads [ALARM_ON] as false at the head of its loop. *)
Inductive thread_status : Type :=
| Running
| Finished.

(** What the frame loop prints (lines 350 and 366).  A [print] that raises
    there ends the program: the states of the frame loop are those of a
    program that runs on. *)
Inductive message : Type :=
| Alert (ear : Q)
| AlarmOff (ear : Q).

(** The module-level globals the frame loop mutates, the threads started so
    far (in the order they were started) and the console. *)
Record process : Type := mkProcess {
  COUNTER : nat;
  ALARM_ON : bool;
  ALARM_THREAD : option nat;
  threads : list thread_status;
  console : list message
}.

(** The constants of lines 20-21. *)
Record config : Type := mkConfig {
  EYE_THRESHOLD : Q;
  NUM_CONSECUTIVE_FRAMES : nat
}.

Definition source_config : config :=
  {| EYE_THRESHOLD := 0.68%Q; NUM_CONSECUTIVE_FRAMES := 100 |}.

(** Lines 22-24, and no thread started yet. *)
Definition initial : process :=
  {| COUNTER := 0; ALARM_ON := false; ALARM_THREAD := None;
     threads := []; console := [] |}.

Section Loop.

Variable cfg : config.

(** Lines 349-354: set the flag, print, create and start the thread. *)
Definition start_alarm (ear : Q) (p : process) : process :=
  {| COUNTER := COUNTER p;
     ALARM_ON := true;
     ALARM_THREAD := Some (length (threads p));
     threads := threads p ++ [Running];
     console := console p ++ [Alert ear] |}.

(** Lines 365-366. *)
Definition stop_alarm (ear : Q) (p : process) : process :=
  {| COUNTER := COUNTER p;
     ALARM_ON := false;
     ALARM_THREAD := ALARM_THREAD p;
     threads := threads p;
     console := console p ++ [AlarmOff ear] |}.

Definition set_COUNTER (n : nat) (p : process) : process :=
  {| COUNTER := n;
     ALARM_ON := ALARM_ON p;
     ALARM_THREAD := ALARM_THREAD p;
     threads := threads p;
     console := console p |}.

(** Lines 343-369, for one detected face whose averaged ratio is [ear]. *)
Definition process_face (ear : Q) (p : process) : process :=
  if Qltb ear (EYE_THRESHOLD cfg) then
    let p1 := set_COUNTER (COUNTER p + 1) p in
    if NUM_CONSECUTIVE_FRAMES cfg <=? COUNTER p1 then
      if negb (ALARM_ON p1) then start_alarm ear p1 else p1
    else p1
  else
    let p1 := if ALARM_ON p then stop_alarm ear p else p in
    set_COUNTER 0 p1.

(** What the face mesh returned for a frame: [None], or the list of the
    detected faces, each given by its averaged ratio. *)
Definition detection : Type := option (list Q).

(** Lines 323-394: [if results.multi_face_landmarks:] is false for [None]
    and for an empty list; the [else] branch only draws on the frame. *)
Definition process_frame (r : detection) (p : process) : process :=
  match r with
  | None => p
  | Some [] => p
  | Some faces => fold_left (fun q ear => process_face ear q) faces p
  end.

Definition run (frames : list detection) (p : process) : process :=
  fold_left (fun q r => process_frame r q) frames p.

(** The state after each frame of a sequence. *)
Fixpoint states (frames : list detection) (p : process) : list process :=
  match frames with
  | [] => []
  | r :: rest => let q := process_frame r p in q :: states rest q
  end.

(** The ratios the state machine saw: the frames without a face contribute
    nothing. *)
Fixpoint ears_of (frames : list detection) : list Q :=
  match frames with
  | [] => []
  | None :: rest => ears_of rest
  | Some faces :: rest => faces ++ ears_of rest
  end.

(** Line 169, evaluated by thread [i]: the thread leaves its loop, and
    ends, when it reads the flag as false. *)
Fixpoint finish (i : nat) (ts : list thread_status) : list thread_status :=
  match ts, i with
  | [], _ => []
  | _ :: rest, 0 => Finished :: rest
  | t :: rest, S j => t :: finish j rest
  end.

Definition loop_check (i : nat) (p : process) : process :=
  if ALARM_ON p then p
  else {| COUNTER := COUNTER p;
          ALARM_ON := ALARM_ON p;
          ALARM_THREAD := ALARM_THREAD p;
          threads := finish i (threads p);
          console := console p |}.

(** Any number of such evaluations, by the threads [polls] in turn. *)
Definition loop_checks (polls : list nat) (p : process) : process :=
  fold_left (fun q i => loop_check i q) polls p.

Definition is_running (t : thread_status) : bool :=
  match t with Running => true | Finished => false end.

(** [Thread.is_alive()] over the threads started so far. *)
Definition alive (p : process) : nat :=
  length (filter is_running (threads p)).

(** The loop body on the ratios of the detected faces, one after the
    other. *)
Definition faces_run (ears : list Q) (p : process) : process :=
  fold_left (fun q ear => process_face ear q) ears p.

(** A ratio strictly below the threshold. *)
Definition below (ear : Q) : Prop := (ear < EYE_THRESHOLD cfg)%Q.

End Loop.

(** The scenario of a threshold of 0.68 and five frames: one face per frame,
    with the ratios 0.7, 0.5, 0.5, 0.5, 0.5, 0.5, 0.7. *)
Definition scenario_config : config :=
  {| EYE_THRESHOLD := 0.68%Q; NUM_CONSECUTIVE_FRAMES := 5 |}.

Definition scenario : list detection :=
  map (fun ear => Some [ear]) [0.7; 0.5; 0.5; 0.5; 0.5; 0.5; 0.7]%Q.


(** ** The eye aspect ratio *)

Section Geometry.

Local Open Scope R_scope.

(** A landmark of the face mesh: the fields [x] and [y] the code reads. *)
Record landmark : Type := mkLandmark {
  x : R;
  y : R
}.

(** [scipy.spatial.distance.euclidean] on two rows [[x, y]] of
    [eye_coords]. *)
Definition euclidean (u v : R * R) : R :=
  sqrt ((fst u - fst v) * (fst u - fst v) + (snd u - snd v) * (snd u - snd v)).

(** Lines 240-244: [landmarks[point]] raises [IndexError] out of range, and
    so does the whole loop ([None]). *)
Fixpoint extract_coords (landmarks : list landmark) (eye_points : list nat)
  : option (list (R * R)) :=
  match eye_points with
  | [] => Some []
  | point :: rest =>
      match nth_error landmarks point with
      | None => None
      | Some l =>
          match extract_coords landmarks rest with
          | None => None
          | Some coords => Some ((x l, y l) :: coords)
          end
      end
  end.

(** Lines 231-262.  [None] stands for the [IndexError] of an access out of
    range, on [landmarks] or on [eye_coords]. *)
Definition calculate_eye_ratio (landmarks : list landmark) (eye_points : list nat)
  : option R :=
  match extract_coords landmarks eye_points with
  | None => None
  | Some eye_coords =>
      match nth_error eye_coords 1, nth_error eye_coords 5,
            nth_error eye_coords 2, nth_error eye_coords 4,
            nth_error eye_coords 0, nth_error eye_coords 3 with
      | Some c1, Some c5, Some c2, Some c4, Some c0, Some c3 =>
          let A := euclidean c1 c5 in
          let B := euclidean c2 c4 in
          let C := euclidean c0 c3 in
          Some (if Rlt_dec 0 C then (A + B) / (2 * C) else 0)
      | _, _, _, _, _, _ => None
      end
  end.

(** The ratio as the comments of the source document it (line 41: the six
    points are [outer corner, top, inner corner, bottom, top, bottom];
    lines 250-254: two top-bottom distances over twice the distance between
    the corners), with the guard of line 257.  It is compared with
    [calculate_eye_ratio] below; the code is the definition above. *)
Definition documented_eye_ratio
  (outerCorner topA innerCorner bottomA topB bottomB : R * R) : R :=
  if Rlt_dec 0 (euclidean outerCorner innerCorner)
  then (euclidean topA bottomA + euclidean topB bottomB)
       / (2 * euclidean outerCorner innerCorner)
  else 0.

(** Six points as the landmarks of a face, read in their order. *)
Definition six_points (p0 p1 p2 p3 p4 p5 : R * R) : list landmark :=
  map (fun c => {| x := fst c; y := snd c |}) [p0; p1; p2; p3; p4; p5].

Definition in_order : list nat := [0; 1; 2; 3; 4; 5]%nat.

End Geometry.

(** ** The alarm: backend selection, playback and the alarm thread *)

(** The exceptions the external calls raise.  All are subclasses of
    [Exception]; the handlers of the source tell them apart by class. *)
Inductive exn : Type :=
| ImportError
| FileNotFoundError
| TimeoutExpired
| OtherException.

Inductive result (A : Type) : Type :=
| Ok (a : A)
| Raise (e : exn).

Arguments Ok {A} a.
Arguments Raise {A} e.

(** What a function does to the outside, in the order it does it: the
    external calls with the exception they raised, if any, the calls of
    [time.sleep] in milliseconds, the lines printed, and the lines whose
    [print] raised. *)
Inductive event : Type :=
| Call (f : string) (raised : option exn)
| Sleep (ms : nat)
| Print (line : string)
| PrintRaised (line : string).

(** The places where the alarm thread reads the global [ALARM_ON], which
    the frame loop may change at any time: line 169, line 132 (at each
    turn of the wait), lines 180, 192, 194 (for each [i]), 210 and 226. *)
Inductive site : Type :=
| AtLoop
| AtPoll (k : nat)
| AtBeep
| AtBell
| AtBellRing (i : nat)
| AtCommand
| AtVisual.

(** The outside, as one run of a function meets it: the outcome of each
    external call, whether the [print] of a line raises (a closed or broken
    [sys.stdout], a sign the console cannot encode) and the value of each
    read of [ALARM_ON].  An empty list [pygame_mixer_get_busy] is a sound
    that is over at the first test. *)
Record env : Type := mkEnv {
  ALARM_FILE : string;
  path_exists : bool;
  import_module : string -> option exn;
  pygame_mixer_init : option exn;
  pygame_mixer_get_init : result bool;
  pygame_mixer_Sound : option exn;
  Sound_play : option exn;
  pygame_mixer_get_busy : list (result bool);
  playsound_playsound : option exn;
  AudioSegment_from_file : option exn;
  pydub_play : option exn;
  winsound_PlaySound : option exn;
  winsound_Beep : option exn;
  stdout_write : nat -> option exn;
  stdout_flush : nat -> option exn;
  print_raises : string -> bool;
  platform_system : result string;
  subprocess_run : string -> option exn;
  alarm_on : site -> bool
}.

(** Line 28. *)
Definition source_ALARM_FILE : string :=
  "G:/Guilherme/Sigmoidal/Masterclass Visao/sonolencia/buzina.wav".

(** The global of line 32 and what has happened so far. *)
Record world : Type := mkWorld {
  AUDIO_LIBRARY : option string;
  trace : list event
}.

(** State and exceptions: the state reached when an exception is raised is
    kept, as in Python. *)
Definition M (A : Type) : Type := world -> result A * world.

Definition ret {A : Type} (a : A) : M A := fun w => (Ok a, w).

Definition bind {A B : Type} (m : M A) (k : A -> M B) : M B :=
  fun w =>
    match m w with
    | (Ok a, w1) => k a w1
    | (Raise e, w1) => (Raise e, w1)
    end.

Definition raise {A : Type} (e : exn) : M A := fun w => (Raise e, w).

Notation "x <- m ;; k" := (bind m (fun x => k))
  (at level 61, m at next level, right associativity).
Notation "m ;; k" := (bind m (fun _ => k))
  (at level 61, right associativity).

(** [try: body except ...:]: [handlers e] is the handler of the first
    clause that matches [e], if one does; otherwise [e] goes on. *)
Definition try_except {A : Type} (body : M A) (handlers : exn -> option (M A)) : M A :=
  fun w =>
    match body w with
    | (Ok a, w1) => (Ok a, w1)
    | (Raise e, w1) =>
        match handlers e with
        | Some h => h w1
        | None => (Raise e, w1)
        end
    end.

Definition emit (ev : event) : M unit :=
  fun w => (Ok tt, {| AUDIO_LIBRARY := AUDIO_LIBRARY w; trace := trace w ++ [ev] |}).

(** [print(line)], where [raises] tells the lines that [sys.stdout] does
    not take.  What [print] raises then ([OSError], [ValueError],
    [UnicodeEncodeError]) is an [Exception] that none of the handlers of the
    source tells from the others. *)
Definition print (raises : string -> bool) (line : string) : M unit :=
  fun w =>
    if raises line
    then (Raise OtherException,
          {| AUDIO_LIBRARY := AUDIO_LIBRARY w; trace := trace w ++ [PrintRaised line] |})
    else (Ok tt, {| AUDIO_LIBRARY := AUDIO_LIBRARY w; trace := trace w ++ [Print line] |}).

(** [time.sleep] of a positive constant is taken not to fail. *)
Definition sleep (ms : nat) : M unit := emit (Sleep ms).

(** An external call that returns nothing of interest. *)
Definition call (f : string) (outcome : option exn) : M unit :=
  emit (Call f outcome) ;;
  match outcome with
  | None => ret tt
  | Some e => raise e
  end.

(** An external call whose value the code uses. *)
Definition call_value {A : Type} (f : string) (outcome : result A) : M A :=
  match outcome with
  | Ok a => emit (Call f None) ;; ret a
  | Raise e => emit (Call f (Some e)) ;; raise e
  end.

Definition import_ (e : env) (name : string) : M unit :=
  call ("import " ++ name)%string (import_module e name).

Definition get_AUDIO_LIBRARY : M (option string) :=
  fun w => (Ok (AUDIO_LIBRARY w), w).

Definition set_AUDIO_LIBRARY (v : option string) : M unit :=
  fun w => (Ok tt, {| AUDIO_LIBRARY := v; trace := trace w |}).

(** How a block of statements ends: it runs to its end, or it leaves the
    function with [return] (the loop body with [continue]). *)
Inductive completion (A : Type) : Type :=
| Normal
| Return (a : A).

Arguments Normal {A}.
Arguments Return {A} a.

Definition normal {A : Type} : M (completion A) := ret Normal.

Definition return_ {A : Type} (a : A) : M (completion A) := ret (Return a).

Definition continue_ : M (completion unit) := ret (Return tt).

(** One statement after another. *)
Definition then_ {A : Type} (s1 s2 : M (completion A)) : M (completion A) :=
  c <- s1 ;;
  match c with
  | Normal => s2
  | Return a => ret (Return a)
  end.

Notation "s1 ;;; s2" := (then_ s1 s2) (at level 62, right associativity).

(** [str.lower], on the ASCII letters. *)
Definition lower_ascii (c : ascii) : ascii :=
  let n := nat_of_ascii c in
  if (65 <=? n) && (n <=? 90) then ascii_of_nat (n + 32) else c.

Fixpoint lower (s : string) : string :=
  match s with
  | EmptyString => EmptyString
  | String c rest => String (lower_ascii c) (lower rest)
  end.

(** [sub in s]. *)
Fixpoint contains (sub s : string) : bool :=
  String.prefix sub s ||
  match s with
  | EmptyString => false
  | String _ rest => contains sub rest
  end.

(** [s.endswith(suffix)]. *)
Definition endswith (s suffix : string) : bool :=
  (String.length suffix <=? String.length s) &&
  String.eqb (substring (String.length s - String.length suffix) (String.length suffix) s) suffix.

(** [AUDIO_LIBRARY == name]. *)
Definition library_is (lib : option string) (name : string) : bool :=
  match lib with
  | Some s => String.eqb s name
  | None => false
  end.

(** The truth value of [AUDIO_LIBRARY] (lines 171, 306 and 387). *)
Definition truthy (lib : option string) : bool :=
  match lib with
  | Some s => negb (String.eqb s "")
  | None => false
  end.

Section Alarm.

Local Open Scope string_scope.

Variable e : env.

(** Lines 54-58: the file must exist. *)
Definition check_file : M (completion (option string)) :=
  found <- call_value "os.path.exists" (Ok (path_exists e)) ;;
  if negb found then
    print (print_raises e) "[WARNING] Audio file not found: {ALARM_FILE}" ;;
    print (print_raises e) "[INFO] Using system alarm as fallback" ;;
    return_ None
  else normal.

(** Lines 60-72. *)
Definition try_pygame : M (completion (option string)) :=
  try_except
    (import_ e "pygame" ;;
     call "pygame.mixer.init" (pygame_mixer_init e) ;;
     call "pygame.mixer.Sound" (pygame_mixer_Sound e) ;;
     set_AUDIO_LIBRARY (Some "pygame") ;;
     print (print_raises e) "[INFO] Using pygame to play: {ALARM_FILE}" ;;
     return_ (Some "pygame"))
    (fun x =>
       match x with
       | ImportError => Some (print (print_raises e) "[INFO] pygame not found" ;; normal)
       | _ =>
           Some (print (print_raises e) "[WARNING] Error loading file with pygame: {e}" ;;
                 normal)
       end).

(** Lines 74-84: nothing stands between the import and the assignment. *)
Definition try_playsound : M (completion (option string)) :=
  try_except
    (import_ e "playsound" ;;
     set_AUDIO_LIBRARY (Some "playsound") ;;
     print (print_raises e) "[INFO] Using playsound to play: {ALARM_FILE}" ;;
     return_ (Some "playsound"))
    (fun x =>
       match x with
       | ImportError => Some (print (print_raises e) "[INFO] playsound not found" ;; normal)
       | _ => Some (print (print_raises e) "[WARNING] Error testing playsound: {e}" ;; normal)
       end).

(** Lines 86-98. *)
Definition try_pydub : M (completion (option string)) :=
  try_except
    (import_ e "pydub" ;;
     import_ e "pydub.playback" ;;
     call "AudioSegment.from_file" (AudioSegment_from_file e) ;;
     set_AUDIO_LIBRARY (Some "pydub") ;;
     print (print_raises e) "[INFO] Using pydub to play: {ALARM_FILE}" ;;
     return_ (Some "pydub"))
    (fun x =>
       match x with
       | ImportError => Some (print (print_raises e) "[INFO] pydub not found" ;; normal)
       | _ => Some (print (print_raises e) "[WARNING] Error loading file with pydub: {e}" ;; normal)
       end).

(** Lines 100-111. *)
Definition try_winsound : M (completion (option string)) :=
  try_except
    (import_ e "winsound" ;;
     import_ e "platform" ;;
     system <- call_value "platform.system" (platform_system e) ;;
     if String.eqb system "Windows" && endswith (lower (ALARM_FILE e)) ".wav" then
       set_AUDIO_LIBRARY (Some "winsound") ;;
       print (print_raises e) "[INFO] Using winsound to play: {ALARM_FILE}" ;;
       return_ (Some "winsound")
     else normal)
    (fun x =>
       match x with
       | ImportError => Some normal
       | _ => Some (print (print_raises e) "[WARNING] Error testing winsound: {e}" ;; normal)
       end).

(** Lines 113-115. *)
Definition no_library : M (completion (option string)) :=
  print (print_raises e) "[WARNING] No compatible audio library found" ;;
  print (print_raises e) "[INFO] Using system alarm as fallback" ;;
  return_ None.

(** Lines 46-115. *)
Definition check_audio_library : M (option string) :=
  c <- (check_file ;;; try_pygame ;;; try_playsound ;;; try_pydub ;;;
        try_winsound ;;; no_library) ;;
  match c with
  | Return r => ret r
  | Normal => ret None
  end.

(** Lines 132-133: wait for the sound to end, or for the alarm to stop. *)
Fixpoint wait_while_busy (k : nat) (polls : list (result bool)) : M unit :=
  match polls with
  | [] => _ <- call_value "pygame.mixer.get_busy" (Ok false) ;; ret tt
  | r :: rest =>
      busy <- call_value "pygame.mixer.get_busy" r ;;
      if busy && alarm_on e (AtPoll k) then
        sleep 100 ;; wait_while_busy (S k) rest
      else ret tt
  end.

(** Lines 118-158. *)
Definition play_audio_file : M bool :=
  c <- try_except
         (lib <- get_AUDIO_LIBRARY ;;
          if library_is lib "pygame" then
            import_ e "pygame" ;;
            init <- call_value "pygame.mixer.get_init" (pygame_mixer_get_init e) ;;
            (if negb init then call "pygame.mixer.init" (pygame_mixer_init e) else ret tt) ;;
            call "pygame.mixer.Sound" (pygame_mixer_Sound e) ;;
            call "Sound.play" (Sound_play e) ;;
            wait_while_busy 0 (pygame_mixer_get_busy e) ;;
            return_ true
          else if library_is lib "playsound" then
            import_ e "playsound" ;;
            call "playsound.playsound" (playsound_playsound e) ;;
            sleep 1000 ;;
            return_ true
          else if library_is lib "pydub" then
            import_ e "pydub" ;;
            import_ e "pydub.playback" ;;
            call "AudioSegment.from_file" (AudioSegment_from_file e) ;;
            call "pydub.playback.play" (pydub_play e) ;;
            return_ true
          else if library_is lib "winsound" then
            import_ e "winsound" ;;
            call "winsound.PlaySound" (winsound_PlaySound e) ;;
            sleep 1000 ;;
            return_ true
          else normal)
         (fun _ => Some (print (print_raises e) "[ERROR] Failed to play audio: {e}" ;; normal)) ;;
  match c with
  | Return b => ret b
  | Normal => ret false
  end.

(** Lines 193-198: [for i in range(3)], from [i] on, [n] turns left. *)
Fixpoint ring_bell (i n : nat) : M unit :=
  match n with
  | 0 => ret tt
  | S n' =>
      if negb (alarm_on e (AtBellRing i)) then ret tt
      else
        call "sys.stdout.write" (stdout_write e i) ;;
        call "sys.stdout.flush" (stdout_flush e i) ;;
        sleep 100 ;;
        ring_bell (S i) n'
  end.

(** Lines 171-174: the audio file. *)
Definition file_stage : M (completion unit) :=
  lib <- get_AUDIO_LIBRARY ;;
  if truthy lib then
    played <- play_audio_file ;;
    if played then sleep 500 ;; continue_ else normal
  else normal.

(** Lines 177-187: the tone of [winsound]. *)
Definition beep_stage : M (completion unit) :=
  try_except
    (import_ e "winsound" ;;
     (if alarm_on e AtBeep then
        call "winsound.Beep" (winsound_Beep e) ;; sleep 300
      else ret tt) ;;
     continue_)
    (fun x =>
       match x with
       | ImportError => Some normal
       | _ => Some (print (print_raises e) "Error with winsound: {e}" ;; normal)
       end).

(** Lines 189-202: the bell of the terminal. *)
Definition bell_stage : M (completion unit) :=
  try_except
    (import_ e "sys" ;;
     (if alarm_on e AtBell then ring_bell 0 3 ;; sleep 500 else ret tt) ;;
     continue_)
    (fun _ => Some (print (print_raises e) "Error with basic beep: {e}" ;; normal)).

(** Lines 204-223: a command of the system. *)
Definition command_stage : M (completion unit) :=
  try_except
    (import_ e "subprocess" ;;
     import_ e "platform" ;;
     name <- call_value "platform.system" (platform_system e) ;;
     let system := lower name in
     (if alarm_on e AtCommand then
        (if contains "linux" system then
           try_except
             (call "subprocess.run beep" (subprocess_run e "beep"))
             (fun x =>
                match x with
                | FileNotFoundError =>
                    Some (call "subprocess.run speaker-test" (subprocess_run e "speaker-test"))
                | _ => None
                end)
         else if contains "darwin" system then
           call "subprocess.run say" (subprocess_run e "say")
         else ret tt) ;;
        sleep 1000
      else ret tt) ;;
     continue_)
    (fun _ => Some (print (print_raises e) "Error with system command: {e}" ;; normal)).

(** Lines 225-228: the warning on the console (the line printed, without
    its two signs). *)
Definition visual_stage : M (completion unit) :=
  (if alarm_on e AtVisual then
     print (print_raises e) "DROWSINESS ALERT!" ;; sleep 1000
   else ret tt) ;;
  normal.

(** Lines 170-228: the body of the loop of [trigger_continuous_alarm]. *)
Definition alarm_iteration : M (completion unit) :=
  file_stage ;;; beep_stage ;;; bell_stage ;;; command_stage ;;; visual_stage.

End Alarm.

(** How an observed run of the alarm loop ends: the thread read [ALARM_ON]
    as false and left the loop, or it is still in the loop when the
    observation ends. *)
Inductive loop_end : Type :=
| Exited
| StillRunning.

(** Lines 161-229; the loop meets the outside of [iterations] turn by
    turn. *)
Fixpoint trigger_continuous_alarm (iterations : list env) : M loop_end :=
  match iterations with
  | [] => ret StillRunning
  | e :: rest =>
      if alarm_on e AtLoop then
        alarm_iteration e ;; trigger_continuous_alarm rest
      else ret Exited
  end.

(** ** What a trace shows *)

(** The world after [added] has happened. *)
Definition extend (w : world) (added : list event) : world :=
  {| AUDIO_LIBRARY := AUDIO_LIBRARY w; trace := trace w ++ added |}.

(** The state at line 32, before anything has happened. *)
Definition startup : world := {| AUDIO_LIBRARY := None; trace := [] |}.

(** The ways the alarm thread makes itself heard or seen, in the order of
    the loop body. *)
Inductive mechanism : Type :=
| AudioFile
| ToneBeep
| TerminalBell
| ShellCommand
| VisualAlert.

Definition rank (m : mechanism) : nat :=
  match m with
  | AudioFile => 0
  | ToneBeep => 1
  | TerminalBell => 2
  | ShellCommand => 3
  | VisualAlert => 4
  end.

Definition named (names : list string) (f : string) : bool :=
  existsb (String.eqb f) names.

(** The calls that load or play [ALARM_FILE]. *)
Definition file_calls : list string :=
  ["pygame.mixer.Sound"; "Sound.play"; "playsound.playsound";
   "AudioSegment.from_file"; "pydub.playback.play"; "winsound.PlaySound"]%string.

(** The mechanism an event belongs to, when it is the use of one. *)
Definition mechanism_of (ev : event) : option mechanism :=
  match ev with
  | Call f _ =>
      if named file_calls f then Some AudioFile
      else if String.eqb f "winsound.Beep" then Some ToneBeep
      else if named ["sys.stdout.write"; "sys.stdout.flush"]%string f then Some TerminalBell
      else if String.prefix "subprocess.run" f then Some ShellCommand
      else None
  | Print line => if String.eqb line "DROWSINESS ALERT!" then Some VisualAlert else None
  | PrintRaised line =>
      if String.eqb line "DROWSINESS ALERT!" then Some VisualAlert else None
  | Sleep _ => None
  end.

(** The libraries [check_audio_library] tries, in the order of its body. *)
Inductive backend : Type :=
| Pygame
| Playsound
| Pydub
| Winsound.

Definition backend_rank (b : backend) : nat :=
  match b with
  | Pygame => 0
  | Playsound => 1
  | Pydub => 2
  | Winsound => 3
  end.

Definition backend_name (b : backend) : string :=
  match b with
  | Pygame => "pygame"
  | Playsound => "playsound"
  | Pydub => "pydub"
  | Winsound => "winsound"
  end.

(** The external calls of the block of a library in [check_audio_library]. *)
Definition backend_calls (b : backend) : list string :=
  match b with
  | Pygame => ["import pygame"; "pygame.mixer.init"; "pygame.mixer.Sound"]
  | Playsound => ["import playsound"]
  | Pydub => ["import pydub"; "import pydub.playback"; "AudioSegment.from_file"]
  | Winsound => ["import winsound"; "import platform"; "platform.system"]
  end%string.

(** The library whose block an event of [check_audio_library] belongs
    to. *)
Definition backend_of (ev : event) : option backend :=
  match ev with
  | Call f _ =>
      if named (backend_calls Pygame) f then Some Pygame
      else if named (backend_calls Playsound) f then Some Playsound
      else if named (backend_calls Pydub) f then Some Pydub
      else if named (backend_calls Winsound) f then Some Winsound
      else None
  | _ => None
  end.

(** The events of a trace that [classify] recognises, in their order. *)
Fixpoint pick {A : Type} (classify : event -> option A) (evs : list event) : list A :=
  match evs with
  | [] => []
  | ev :: rest =>
      match classify ev with
      | Some a => a :: pick classify rest
      | None => pick classify rest
      end
  end.

Definition mechanisms (evs : list event) : list nat :=
  map rank (pick mechanism_of evs).

Definition backends (evs : list event) : list nat :=
  map backend_rank (pick backend_of evs).

(** The mechanism [m] was used. *)
Definition used (m : mechanism) (evs : list event) : Prop :=
  In (rank m) (mechanisms evs).

(** The library [b] was tried. *)
Definition tried (b : backend) (evs : list event) : Prop :=
  In (backend_rank b) (backends evs).

(** Ranks that never go down. *)
Fixpoint ascending (ns : list nat) : bool :=
  match ns with
  | [] => true
  | n :: rest => forallb (fun n' => n <=? n') rest && ascending rest
  end.

(** All the ranks are [k]. *)
Definition all_are (k : nat) (ns : list nat) : bool := forallb (Nat.eqb k) ns.

(** The external calls of the stage of a fallback mechanism. *)
Definition stage_calls (m : mechanism) : list string :=
  match m with
  | AudioFile => []
  | ToneBeep => ["import winsound"; "winsound.Beep"]
  | TerminalBell => ["import sys"; "sys.stdout.write"; "sys.stdout.flush"]
  | ShellCommand =>
      ["import subprocess"; "import platform"; "platform.system";
       "subprocess.run beep"; "subprocess.run speaker-test"; "subprocess.run say"]
  | VisualAlert => []
  end%string.

(** One of the calls [names] raised an exception. *)
Definition raised_in (names : list string) (evs : list event) : bool :=
  existsb (fun ev =>
             match ev with
             | Call f (Some _) => named names f
             | _ => false
             end) evs.

(** Some call raised an exception. *)
Definition raised (evs : list event) : bool :=
  existsb (fun ev =>
             match ev with
             | Call _ (Some _) => true
             | _ => false
             end) evs.

(** The call [f] was made and raised nothing. *)
Definition succeeded (f : string) (evs : list event) : bool :=
  existsb (fun ev =>
             match ev with
             | Call g None => String.eqb g f
             | _ => false
             end) evs.

(** A call that loads or plays the file was made. *)
Definition touches_file (evs : list event) : bool :=
  existsb (fun ev =>
             match ev with
             | Call f _ => named file_calls f
             | _ => false
             end) evs.

(** How many times the bell character was written. *)
Definition bell_writes (evs : list event) : nat :=
  length (filter (fun ev =>
                    match ev with
                    | Call f _ => String.eqb f "sys.stdout.write"
                    | _ => false
                    end) evs).

Definition is_raise {A : Type} (r : result A) : bool :=
  match r with
  | Raise _ => true
  | Ok _ => false
  end.

(** The [print] of some line raised. *)
Definition print_failed (evs : list event) : bool :=
  existsb (fun ev =>
             match ev with
             | PrintRaised _ => true
             | _ => false
             end) evs.

(** What a stage of the loop body may do: use its own mechanism only, end
    otherwise than by [continue] only after one of its calls has raised,
    and raise only what a [print] has raised. *)
Definition stage_ok (m : mechanism) (r : result (completion unit)) (added : list event)
  : bool :=
  all_are (rank m) (mechanisms added) &&
  Bool.eqb (print_failed added) (is_raise r) &&
  match r with
  | Ok (Return _) => true
  | _ => raised_in (stage_calls m) added
  end.

(** What a block of [check_audio_library] may do: call its own library
    only, and select it only when no call has raised, after loading the
    file for pygame and pydub, without touching it for the others. *)
Definition block_ok (b : backend) (c : completion (option string)) (added : list event)
  : bool :=
  all_are (backend_rank b) (backends added) &&
  match backends added with [] => false | _ :: _ => true end &&
  match c with
  | Normal => true
  | Return None => false
  | Return (Some name) =>
      String.eqb name (backend_name b) && negb (raised added) &&
      match b with
      | Pygame => succeeded "pygame.mixer.Sound" added
      | Pydub => succeeded "AudioSegment.from_file" added
      | Playsound => negb (touches_file added)
      | Winsound => negb (touches_file added)
      end
  end.

(** An outside where the file exists and no call can load or play it, on
    a Windows machine without pygame, playsound and pydub. *)
Definition unplayable_on_windows : env :=
  {| ALARM_FILE := "C:/alarm/buzina.wav";
     path_exists := true;
     import_module := fun name =>
       if named ["pygame"; "playsound"; "pydub"; "pydub.playback"]%string name
       then Some ImportError else None;
     pygame_mixer_init := None;
     pygame_mixer_get_init := Ok true;
     pygame_mixer_Sound := Some OtherException;
     Sound_play := Some OtherException;
     pygame_mixer_get_busy := [];
     playsound_playsound := Some OtherException;
     AudioSegment_from_file := Some OtherException;
     pydub_play := Some OtherException;
     winsound_PlaySound := Some OtherException;
     winsound_Beep := None;
     stdout_write := fun _ => None;
     stdout_flush := fun _ => None;
     print_raises := fun _ => false;
     platform_system := Ok "Windows"%string;
     subprocess_run := fun _ => None;
     alarm_on := fun _ => true |}.

(** The same file on a Linux machine where only playsound is installed. *)
Definition unplayable_with_playsound : env :=
  {| ALARM_FILE := "/home/user/buzina.wav";
     path_exists := true;
     import_module := fun name =>
       if named ["pygame"; "pydub"; "pydub.playback"; "winsound"]%string name
       then Some ImportError else None;
     pygame_mixer_init := None;
     pygame_mixer_get_init := Ok true;
     pygame_mixer_Sound := Some OtherException;
     Sound_play := Some OtherException;
     pygame_mixer_get_busy := [];
     playsound_playsound := Some OtherException;
     AudioSegment_from_file := Some OtherException;
     pydub_play := Some OtherException;
     winsound_PlaySound := Some OtherException;
     winsound_Beep := Some OtherException;
     stdout_write := fun _ => None;
     stdout_flush := fun _ => None;
     print_raises := fun _ => false;
     platform_system := Ok "Linux"%string;
     subprocess_run := fun _ => None;
     alarm_on := fun _ => true |}.

(** On a Windows machine without pygame, playsound and pydub, with an alarm
    file that exists and that no call can load or play: winsound is
    selected, and the file has not been touched. *)
Definition winsound_world : world :=
  {| AUDIO_LIBRARY := Some "winsound"%string;
     trace := [Call "os.path.exists" None;
               Call "import pygame" (Some ImportError);
               Print "[INFO] pygame not found";
               Call "import playsound" (Some ImportError);
               Print "[INFO] playsound not found";
               Call "import pydub" (Some ImportError);
               Print "[INFO] pydub not found";
               Call "import winsound" None;
               Call "import platform" None;
               Call "platform.system" None;
               Print "[INFO] Using winsound to play: {ALARM_FILE}"]%string |}.

(** Every call that loads or plays the file raises. *)
Definition unloadable (e : env) : bool :=
  match pygame_mixer_Sound e, playsound_playsound e,
        AudioSegment_from_file e, winsound_PlaySound e with
  | Some _, Some _, Some _, Some _ => true
  | _, _, _, _ => false
  end.

(** ** What the functions of the alarm are to do *)

(** The world after [check_audio_library] has returned [r]. *)
Definition selected (r : option string) (w : world) (added : list event) : world :=
  {| AUDIO_LIBRARY := match r with
                      | Some name => Some name
                      | None => AUDIO_LIBRARY w
                      end;
     trace := trace w ++ added |}.

(** What the selection of winsound rests on: the three calls, the name of
    the platform and the end of the file name. *)
Definition winsound_selected : list event :=
  [Call "import winsound" None; Call "import platform" None;
   Call "platform.system" None;
   Print "[INFO] Using winsound to play: {ALARM_FILE}"]%string.

(** What [check_audio_library] does: it tries the libraries in their
    order, up to the one it selects and no further, all of them when it
    selects none though the file exists, and none when the file is
    missing; pygame and pydub are selected after they have loaded the
    file, winsound after the platform and the file name have been
    looked at. *)
Definition selection_ok (e : env) (r : option string) (added : list event) : Prop :=
  ascending (backends added) = true /\
  (r = None \/ exists b, r = Some (backend_name b)) /\
  (forall b, r = Some (backend_name b) ->
             forall b', tried b' added <-> backend_rank b' <= backend_rank b) /\
  (path_exists e = false -> r = None /\ backends added = []) /\
  (path_exists e = true -> r = None -> forall b, tried b added) /\
  (r = Some "pygame"%string -> succeeded "pygame.mixer.Sound" added = true) /\
  (r = Some "pydub"%string -> succeeded "AudioSegment.from_file" added = true) /\
  (r = Some "winsound"%string ->
   (exists before, added = before ++ winsound_selected) /\
   platform_system e = Ok "Windows"%string /\
   endswith (lower (ALARM_FILE e)) ".wav" = true).

(** What one turn of the loop does: the mechanisms come in the order of
    their ranks, the bell is written at most three times, and a fallback
    mechanism is used only after a call of each fallback before it has
    raised. *)
Definition iteration_ok (added : list event) : Prop :=
  ascending (mechanisms added) = true /\
  bell_writes added <= 3 /\
  (forall m m' : mechanism,
     used m added -> 1 <= rank m' -> rank m' < rank m ->
     raised_in (stage_calls m') added = true).

(** ** The loop around the frames, and the shutdown *)

(** One turn of the [while True] loop of line 312: what [vs.read()] gave,
    [None] or a frame with what the face mesh found on it, and what
    [cv2.waitKey(1)] returned. *)
Record turn : Type := mkTurn {
  frame_read : option detection;
  key : Z
}.

(** Lines 398-401: [key = cv2.waitKey(1) & 0xFF] and [key == ord("q")]. *)
Definition quit_key (k : Z) : bool := (Z.land k 255 =? 113)%Z.

(** Lines 312-402.  The result tells whether the loop was left by [break];
    it is [false] when the turns observed end before that.  A turn without
    a frame goes on to the next one at line 315, before the key is read. *)
Fixpoint main_loop (cfg : config) (turns : list turn) (p : process) : process * bool :=
  match turns with
  | [] => (p, false)
  | t :: rest =>
      match frame_read t with
      | None => main_loop cfg rest p
      | Some r =>
          let q := process_frame cfg r p in
          if quit_key (key t) then (q, true) else main_loop cfg rest q
      end
  end.


(** Line 409: [ALARM_THREAD and ALARM_THREAD.is_alive()]. *)
Definition alarm_thread_alive (p : process) : bool :=
  match ALARM_THREAD p with
  | None => false
  | Some i =>
      match nth_error (threads p) i with
      | Some Running => true
      | _ => false
      end
  end.

(** The calls of the shutdown whose outcome the outside decides. *)
Record shutdown_env : Type := mkShutdownEnv {
  import_pygame : option exn;
  pygame_mixer_quit : option exn;
  cv2_destroyAllWindows : option exn;
  vs_stop : option exn;
  face_mesh_close : option exn;
  print_raises_at_exit : string -> bool
}.

(** Lines 404-423 but line 406, which is [clear_ALARM_ON]: [p] is the
    state of the frame loop when the loop is left.  The [except:] of line
    417 catches everything. *)
Definition cleanup (s : shutdown_env) (p : process) : M unit :=
  print (print_raises_at_exit s) "[INFO] Shutting down..." ;;
  (if alarm_thread_alive p then sleep 500 else ret tt) ;;
  lib <- get_AUDIO_LIBRARY ;;
  (if library_is lib "pygame" then
     try_except
       (call "import pygame" (import_pygame s) ;;
        call "pygame.mixer.quit" (pygame_mixer_quit s))
       (fun _ => Some (ret tt))
   else ret tt) ;;
  call "cv2.destroyAllWindows" (cv2_destroyAllWindows s) ;;
  call "vs.stop" (vs_stop s) ;;
  call "face_mesh.close" (face_mesh_close s) ;;
  print (print_raises_at_exit s) "[INFO] System shut down.".

(** What happens to the state of the frame loop, in any order: a frame is
    processed, or a thread evaluates line 169. *)
Inductive happening : Type :=
| Frame (r : detection)
| LoopCheck (i : nat).

Definition happen (cfg : config) (h : happening) (p : process) : process :=
  match h with
  | Frame r => process_frame cfg r p
  | LoopCheck i => loop_check i p
  end.

Definition history (cfg : config) (hs : list happening) (p : process) : process :=
  fold_left (fun q h => happen cfg h q) hs p.

Definition is_alert (m : message) : bool :=
  match m with Alert _ => true | AlarmOff _ => false end.

Definition is_alarm_off (m : message) : bool :=
  match m with Alert _ => false | AlarmOff _ => true end.

(** The turns that [main_loop] goes through: up to the first turn that
    has a frame and a key whose code is 113 modulo 256, that turn
    included. *)
Fixpoint until_quit (turns : list turn) : list turn :=
  match turns with
  | [] => []
  | t :: rest =>
      match frame_read t with
      | None => t :: until_quit rest
      | Some _ =>
          if (key t mod 256 =? 113)%Z then [t] else t :: until_quit rest
      end
  end.

(** The frames of some turns, those without a frame left out. *)
Fixpoint frames_of (turns : list turn) : list detection :=
  match turns with
  | [] => []
  | t :: rest =>
      match frame_read t with
      | None => frames_of rest
      | Some r => r :: frames_of rest
      end
  end.

(** A turn on which the loop is left. *)
Definition quits (t : turn) : bool :=
  match frame_read t with
  | None => false
  | Some _ => (key t mod 256 =? 113)%Z
  end.

(** The number of low ratios among some ratios. *)
Definition low_count (cfg : config) (ears : list Q) : nat :=
  length (filter (fun ear => Qltb ear (EYE_THRESHOLD cfg)) ears).

(** What the frame loop keeps of its threads and of its console: one
    alert per thread started, one alarm-off per alert but for the alarm
    that is on, the last thread started in [ALARM_THREAD], and that thread
    running while the alarm is on. *)
Definition bookkeeping (p : process) : Prop :=
  length (threads p) = length (filter is_alert (console p)) /\
  length (filter is_alert (console p))
  = length (filter is_alarm_off (console p)) + (if ALARM_ON p then 1 else 0) /\
  ALARM_THREAD p = match threads p with
                   | [] => None
                   | _ :: _ => Some (length (threads p) - 1)
                   end /\
  (ALARM_ON p = true -> alarm_thread_alive p = true).

(** ** More of what a trace shows *)

(** The call [f] was made, whatever came of it. *)
Definition called (f : string) (evs : list event) : bool :=
  existsb (fun ev =>
             match ev with
             | Call g _ => String.eqb g f
             | _ => false
             end) evs.

(** The milliseconds asked of [time.sleep], all in all. *)
Fixpoint sleep_total (evs : list event) : nat :=
  match evs with
  | [] => 0
  | Sleep ms :: rest => ms + sleep_total rest
  | _ :: rest => sleep_total rest
  end.

(** No call of [time.sleep] asks for more than a second. *)
Definition short_sleeps (evs : list event) : bool :=
  forallb (fun ev =>
             match ev with
             | Sleep ms => ms <=? 1000
             | _ => true
             end) evs.

Definition is_none {A : Type} (o : option A) : bool :=
  match o with
  | None => true
  | Some _ => false
  end.

(** The first line of the shutdown is printed. *)
Definition shutdown_begins (s : shutdown_env) : bool :=
  negb (print_raises_at_exit s "[INFO] Shutting down...").

(** How the shutdown ends: with the exception of the first of its two
    prints and of the three releases of lines 420-422 that raises, in the
    order of the lines, if one does. *)
Definition cleanup_result (s : shutdown_env) : result unit :=
  if shutdown_begins s then
    match cv2_destroyAllWindows s, vs_stop s, face_mesh_close s with
    | Some x, _, _ => Raise x
    | None, Some x, _ => Raise x
    | None, None, Some x => Raise x
    | None, None, None =>
        if print_raises_at_exit s "[INFO] System shut down."
        then Raise OtherException else Ok tt
    end
  else Raise OtherException.

(** ** What the outside decides *)

(** What each block of [check_audio_library] needs to select its
    library. *)
Definition pygame_loads (e : env) : bool :=
  is_none (import_module e "pygame") && is_none (pygame_mixer_init e) &&
  is_none (pygame_mixer_Sound e).

Definition playsound_imports (e : env) : bool :=
  is_none (import_module e "playsound").

Definition pydub_loads (e : env) : bool :=
  is_none (import_module e "pydub") && is_none (import_module e "pydub.playback") &&
  is_none (AudioSegment_from_file e).

Definition winsound_fits (e : env) : bool :=
  is_none (import_module e "winsound") && is_none (import_module e "platform") &&
  match platform_system e with
  | Ok system => String.eqb system "Windows" && endswith (lower (ALARM_FILE e)) ".wav"
  | Raise _ => false
  end.

(** The library [check_audio_library] returns, read off the outcomes of
    the calls. *)
Definition decision (e : env) : option string :=
  if negb (path_exists e) then None
  else if pygame_loads e then Some "pygame"%string
  else if playsound_imports e then Some "playsound"%string
  else if pydub_loads e then Some "pydub"%string
  else if winsound_fits e then Some "winsound"%string
  else None.

(** The check of the block of a library: what the block needs to select
    it, its own [print] aside. *)
Definition passes (e : env) (b : backend) : bool :=
  match b with
  | Pygame => pygame_loads e
  | Playsound => playsound_imports e
  | Pydub => pydub_loads e
  | Winsound => winsound_fits e
  end.

(** No [print] raises. *)
Definition quiet (e : env) : Prop := forall line : string, print_raises e line = false.

(** [r] is the first library that passes its check, if the file exists and
    one does. *)
Definition first_to_pass (e : env) (r : option string) : Prop :=
  (forall b : backend,
     r = Some (backend_name b) <->
     path_exists e = true /\ passes e b = true /\
     forall b' : backend, backend_rank b' < backend_rank b -> passes e b' = false) /\
  (r = None <-> path_exists e = false \/ forall b : backend, passes e b = false).

(** The first exception among the outcomes of calls made one after the
    other, each only if the one before has raised nothing. *)
Fixpoint first_raised (outcomes : list (option exn)) : option exn :=
  match outcomes with
  | [] => None
  | None :: rest => first_raised rest
  | Some x :: _ => Some x
  end.

Definition raised_by {A : Type} (r : result A) : option exn :=
  match r with
  | Ok _ => None
  | Raise x => Some x
  end.

(** After the [print] of [line]: it has raised, or the statements that
    follow it are next. *)
Definition after_print {A : Type} (e : env) (line : string) : result (completion A) :=
  if print_raises e line then Raise OtherException else Ok Normal.

(** The line with which a block of [check_audio_library] announces its
    library (lines 67, 79, 93 and 106). *)
Definition announcement (b : backend) : string :=
  match b with
  | Pygame => "[INFO] Using pygame to play: {ALARM_FILE}"
  | Playsound => "[INFO] Using playsound to play: {ALARM_FILE}"
  | Pydub => "[INFO] Using pydub to play: {ALARM_FILE}"
  | Winsound => "[INFO] Using winsound to play: {ALARM_FILE}"
  end%string.

(** The line the handler of a block prints for an exception; line 109 has
    [pass]. *)
Definition block_handler (b : backend) (x : exn) : option string :=
  match b, x with
  | Pygame, ImportError => Some "[INFO] pygame not found"
  | Pygame, _ => Some "[WARNING] Error loading file with pygame: {e}"
  | Playsound, ImportError => Some "[INFO] playsound not found"
  | Playsound, _ => Some "[WARNING] Error testing playsound: {e}"
  | Pydub, ImportError => Some "[INFO] pydub not found"
  | Pydub, _ => Some "[WARNING] Error loading file with pydub: {e}"
  | Winsound, ImportError => None
  | Winsound, _ => Some "[WARNING] Error testing winsound: {e}"
  end%string.

(** What the calls of a block raise first, if anything. *)
Definition block_raises (e : env) (b : backend) : option exn :=
  match b with
  | Pygame =>
      first_raised [import_module e "pygame"; pygame_mixer_init e; pygame_mixer_Sound e]
  | Playsound => import_module e "playsound"
  | Pydub =>
      first_raised [import_module e "pydub"; import_module e "pydub.playback";
                    AudioSegment_from_file e]
  | Winsound =>
      first_raised [import_module e "winsound"; import_module e "platform";
                    raised_by (platform_system e)]
  end%string.

(** A block whose handler has caught [x]. *)
Definition handled (e : env) (b : backend) (x : exn) : result (completion (option string)) :=
  match block_handler b x with
  | Some line => after_print e line
  | None => Ok Normal
  end.

(** How a block ends, and whether it has assigned [AUDIO_LIBRARY]: the
    assignment comes before the announcement, inside the [try], so that an
    announcement that raises is caught by the handler of the block, with
    the global already set. *)
Definition block_outcome (e : env) (b : backend)
  : result (completion (option string)) * bool :=
  match block_raises e b with
  | Some x => (handled e b x, false)
  | None =>
      if passes e b then
        if print_raises e (announcement b)
        then (handled e b OtherException, true)
        else (Ok (Return (Some (backend_name b))), true)
      else (Ok Normal, false)
  end.

(** The state after the block of [b] has run. *)
Definition block_world (e : env) (b : backend) (w : world) (added : list event) : world :=
  {| AUDIO_LIBRARY := if snd (block_outcome e b) then Some (backend_name b)
                      else AUDIO_LIBRARY w;
     trace := trace w ++ added |}.

(** How a block that has not raised has ended; one that has raised has
    selected nothing. *)
Definition completion_of {A : Type} (r : result (completion A)) : completion A :=
  match r with
  | Ok c => c
  | Raise _ => Normal
  end.

(** The two lines printed when no library is selected (lines 56-57 and
    113-114). *)
Definition gives_up (e : env) (first : string) : result (option string) :=
  if print_raises e first || print_raises e "[INFO] Using system alarm as fallback"
  then Raise OtherException else Ok None.

(** What the blocks [bs] come to, one after the other: the result of
    [check_audio_library] and the value of [AUDIO_LIBRARY] after it, which
    was [g] before. *)
Fixpoint through_blocks (e : env) (bs : list backend) (g : option string)
  : result (option string) * option string :=
  match bs with
  | [] => (gives_up e "[WARNING] No compatible audio library found", g)
  | b :: rest =>
      let g' := if snd (block_outcome e b) then Some (backend_name b) else g in
      match fst (block_outcome e b) with
      | Ok Normal => through_blocks e rest g'
      | Ok (Return r) => (Ok r, g')
      | Raise x => (Raise x, g')
      end
  end.

(** What [check_audio_library] returns or raises, and what it leaves in
    [AUDIO_LIBRARY], read off the outside. *)
Definition verdict (e : env) (g : option string) : result (option string) * option string :=
  if path_exists e then through_blocks e [Pygame; Playsound; Pydub; Winsound] g
  else (gives_up e "[WARNING] Audio file not found: {ALARM_FILE}", g).

(** [AUDIO_LIBRARY] is one of the four names [play_audio_file] knows. *)
Definition known_library (lib : option string) : bool :=
  library_is lib "pygame" || library_is lib "playsound" ||
  library_is lib "pydub" || library_is lib "winsound".

(** What [play_audio_file] returns or raises after the events [added]:
    [True] when [AUDIO_LIBRARY] is a name it knows and no call has raised;
    after a call has raised, [False] once the handler has printed its
    line, and what that [print] raises otherwise. *)
Definition play_result (e : env) (lib : option string) (added : list event) : result bool :=
  if known_library lib && negb (raised added) then Ok true
  else if raised added && print_raises e "[ERROR] Failed to play audio: {e}"
       then Raise OtherException
       else Ok false.

(** [play_audio_file] comes to a call on the file: the import of the
    library, and for pygame the test and the start of the mixer, raise
    nothing. *)
Definition plays (e : env) (lib : option string) : bool :=
  if library_is lib "pygame" then
    is_none (import_module e "pygame") &&
    match pygame_mixer_get_init e with
    | Ok true => true
    | Ok false => is_none (pygame_mixer_init e)
    | Raise _ => false
    end
  else if library_is lib "playsound" then is_none (import_module e "playsound")
  else if library_is lib "pydub" then
    is_none (import_module e "pydub") && is_none (import_module e "pydub.playback")
  else if library_is lib "winsound" then is_none (import_module e "winsound")
  else false.

(** How each stage of the loop body ends, read off the outside: by
    [continue], by going on to the next stage, or by an exception. *)
Definition file_outcome (e : env) (w : world) : result (completion unit) :=
  if truthy (AUDIO_LIBRARY w) then
    match fst (play_audio_file e w) with
    | Ok true => Ok (Return tt)
    | Ok false => Ok Normal
    | Raise x => Raise x
    end
  else Ok Normal.

Definition beep_outcome (e : env) : result (completion unit) :=
  match first_raised [import_module e "winsound";
                      if alarm_on e AtBeep then winsound_Beep e else None] with
  | None => Ok (Return tt)
  | Some ImportError => Ok Normal
  | Some _ => after_print e "Error with winsound: {e}"
  end.

(** What the [n] turns of the [for] of line 193 raise first, from [i]
    on. *)
Fixpoint ring_raises (e : env) (i n : nat) : option exn :=
  match n with
  | 0 => None
  | S n' =>
      if alarm_on e (AtBellRing i) then
        match first_raised [stdout_write e i; stdout_flush e i] with
        | Some x => Some x
        | None => ring_raises e (S i) n'
        end
      else None
  end.

Definition bell_outcome (e : env) : result (completion unit) :=
  match first_raised [import_module e "sys";
                      if alarm_on e AtBell then ring_raises e 0 3 else None] with
  | None => Ok (Return tt)
  | Some _ => after_print e "Error with basic beep: {e}"
  end.

(** What lines 209-220 raise: [FileNotFoundError] from [beep] leads to
    [speaker-test]. *)
Definition command_raises (e : env) : option exn :=
  match platform_system e with
  | Raise x => Some x
  | Ok name =>
      if alarm_on e AtCommand then
        if contains "linux" (lower name) then
          match subprocess_run e "beep" with
          | Some FileNotFoundError => subprocess_run e "speaker-test"
          | outcome => outcome
          end
        else if contains "darwin" (lower name) then subprocess_run e "say"
        else None
      else None
  end.

Definition command_outcome (e : env) : result (completion unit) :=
  match first_raised [import_module e "subprocess"; import_module e "platform";
                      command_raises e] with
  | None => Ok (Return tt)
  | Some _ => after_print e "Error with system command: {e}"
  end.

Definition visual_outcome (e : env) : result (completion unit) :=
  if alarm_on e AtVisual then after_print e "DROWSINESS ALERT!" else Ok Normal.

(** The stages in the order of the loop body. *)
Definition stages (e : env) (w : world) : list (result (completion unit)) :=
  [file_outcome e w; beep_outcome e; bell_outcome e; command_outcome e; visual_outcome e].

(** The first of some statements that does not go on to the next decides
    how they end. *)
Fixpoint first_to_end {A : Type} (outcomes : list (result (completion A)))
  : result (completion A) :=
  match outcomes with
  | [] => Ok Normal
  | Ok Normal :: rest => first_to_end rest
  | r :: _ => r
  end.

(** How one turn of the loop ends. *)
Definition turn_outcome (e : env) (w : world) : result (completion unit) :=
  first_to_end (stages e w).

Definition goes_on {A : Type} (r : result (completion A)) : bool :=
  match r with
  | Ok Normal => true
  | _ => false
  end.

(** The stage of the mechanism [m] is reached: every stage before it has
    gone on to the next. *)
Definition reached (e : env) (w : world) (m : mechanism) : bool :=
  forallb goes_on (firstn (rank m) (stages e w)).

(** Some mechanism was used. *)
Definition uses (evs : list event) : bool :=
  match mechanisms evs with
  | [] => false
  | _ :: _ => true
  end.

(** The stage of [m], once reached, comes to use [m]: the imports before
    its call raise nothing and [ALARM_ON] is read as [True]. *)
Definition sounds (e : env) (w : world) (m : mechanism) : bool :=
  match m with
  | AudioFile => truthy (AUDIO_LIBRARY w) && plays e (AUDIO_LIBRARY w)
  | ToneBeep => is_none (import_module e "winsound") && alarm_on e AtBeep
  | TerminalBell =>
      is_none (import_module e "sys") && alarm_on e AtBell && alarm_on e (AtBellRing 0)
  | ShellCommand =>
      is_none (import_module e "subprocess") && is_none (import_module e "platform") &&
      match platform_system e with
      | Ok name =>
          alarm_on e AtCommand &&
          (contains "linux" (lower name) || contains "darwin" (lower name))
      | Raise _ => false
      end
  | VisualAlert => alarm_on e AtVisual
  end.

(** The events of the stage of [m] are [added] when the stage is reached,
    with what [facts] says of them, and none when it is not. *)
Definition part (e : env) (w : world) (m : mechanism) (facts : list event -> Prop)
  (added : list event) : Prop :=
  if reached e w m then facts added else added = [].

(** Every read of [ALARM_ON] in a turn of the alarm loop gives [True]. *)
Definition alarm_stays_on (e : env) : Prop := forall s : site, alarm_on e s = true.


(** What a stage of the loop body sleeps: never more than a second at a
    time; at most [fail] milliseconds when it does not end the turn by
    [continue]; at most [hi] when it does, and then at least [lo] if it
    read [ALARM_ON] as [True]. *)
Definition stage_sleeps (lo hi fail : nat) (on : bool) (r : result (completion unit))
  (added : list event) : bool :=
  short_sleeps added &&
  match r with
  | Ok (Return _) => (sleep_total added <=? hi) && (negb on || (lo <=? sleep_total added))
  | _ => sleep_total added <=? fail
  end.

(** The writes of the bell that the [for] of line 193 comes to. *)
Fixpoint rings (e : env) (i n : nat) : nat :=
  match n with
  | 0 => 0
  | S n' =>
      if alarm_on e (AtBellRing i) then
        match first_raised [stdout_write e i; stdout_flush e i] with
        | Some _ => 1
        | None => S (rings e (S i) n')
        end
      else 0
  end.

(** What the events of each stage of the loop body show. *)
Definition file_facts (e : env) (w : world) (added : list event) : Prop :=
  all_are (rank AudioFile) (mechanisms added) = true /\
  print_failed added = is_raise (file_outcome e w) /\
  uses added = sounds e w AudioFile /\
  (truthy (AUDIO_LIBRARY w) = false -> added = []) /\
  short_sleeps added = true /\
  match file_outcome e w with
  | Ok (Return _) =>
      500 <= sleep_total added <= 100 * length (pygame_mixer_get_busy e) + 1500
  | _ => sleep_total added <= 100 * length (pygame_mixer_get_busy e)
  end /\
  ((forall j, alarm_on e (AtPoll j) = false) ->
   match file_outcome e w with
   | Ok (Return _) => sleep_total added <= 1500
   | _ => sleep_total added = 0
   end).

Definition beep_facts (e : env) (w : world) (added : list event) : Prop :=
  stage_ok ToneBeep (beep_outcome e) added = true /\
  uses added = sounds e w ToneBeep /\
  stage_sleeps 300 300 0 (alarm_on e AtBeep) (beep_outcome e) added = true.

Definition bell_facts (e : env) (w : world) (added : list event) : Prop :=
  stage_ok TerminalBell (bell_outcome e) added = true /\
  uses added = sounds e w TerminalBell /\
  stage_sleeps 500 800 200 (alarm_on e AtBell) (bell_outcome e) added = true /\
  bell_writes added
  = if is_none (import_module e "sys") && alarm_on e AtBell then rings e 0 3 else 0.

Definition command_facts (e : env) (w : world) (added : list event) : Prop :=
  stage_ok ShellCommand (command_outcome e) added = true /\
  uses added = sounds e w ShellCommand /\
  stage_sleeps 1000 1000 0 (alarm_on e AtCommand) (command_outcome e) added = true.

Definition visual_facts (e : env) (w : world) (added : list event) : Prop :=
  all_are (rank VisualAlert) (mechanisms added) = true /\
  print_failed added = is_raise (visual_outcome e) /\
  uses added = sounds e w VisualAlert /\
  short_sleeps added = true /\
  sleep_total added <= 1000 /\
  (goes_on (visual_outcome e) = true ->
   sleep_total added = if alarm_on e AtVisual then 1000 else 0).

(** An outside where playsound is installed and plays the file. *)
Definition playsound_works : env :=
  {| ALARM_FILE := source_ALARM_FILE;
     path_exists := true;
     import_module := fun name =>
       if named ["pygame"; "pydub"; "pydub.playback"; "winsound"]%string name
       then Some ImportError else None;
     pygame_mixer_init := None;
     pygame_mixer_get_init := Ok true;
     pygame_mixer_Sound := None;
     Sound_play := None;
     pygame_mixer_get_busy := [];
     playsound_playsound := None;
     AudioSegment_from_file := None;
     pydub_play := None;
     winsound_PlaySound := None;
     winsound_Beep := None;
     stdout_write := fun _ => None;
     stdout_flush := fun _ => None;
     print_raises := fun _ => false;
     platform_system := Ok "Linux"%string;
     subprocess_run := fun _ => None;
     alarm_on := fun _ => true |}.


(** An outside where pygame loads the file and the line that announces it
    is the one line [sys.stdout] does not take; no other library is
    installed. *)
Definition pygame_unannounced : env :=
  {| ALARM_FILE := source_ALARM_FILE;
     path_exists := true;
     import_module := fun name =>
       if named ["playsound"; "pydub"; "pydub.playback"; "winsound"]%string name
       then Some ImportError else None;
     pygame_mixer_init := None;
     pygame_mixer_get_init := Ok true;
     pygame_mixer_Sound := None;
     Sound_play := None;
     pygame_mixer_get_busy := [];
     playsound_playsound := None;
     AudioSegment_from_file := None;
     pydub_play := None;
     winsound_PlaySound := None;
     winsound_Beep := None;
     stdout_write := fun _ => None;
     stdout_flush := fun _ => None;
     print_raises := String.eqb "[INFO] Using pygame to play: {ALARM_FILE}";
     platform_system := Ok "Linux"%string;
     subprocess_run := fun _ => None;
     alarm_on := fun _ => true |}.

(** A Linux machine where playsound is installed and cannot play the
    file, with a [sys.stdout] that is closed: every write and every
    [print] raises. *)
Definition closed_stdout : env :=
  {| ALARM_FILE := ALARM_FILE unplayable_with_playsound;
     path_exists := true;
     import_module := import_module unplayable_with_playsound;
     pygame_mixer_init := None;
     pygame_mixer_get_init := Ok true;
     pygame_mixer_Sound := Some OtherException;
     Sound_play := Some OtherException;
     pygame_mixer_get_busy := [];
     playsound_playsound := Some OtherException;
     AudioSegment_from_file := Some OtherException;
     pydub_play := Some OtherException;
     winsound_PlaySound := Some OtherException;
     winsound_Beep := Some OtherException;
     stdout_write := fun _ => Some OtherException;
     stdout_flush := fun _ => Some OtherException;
     print_raises := fun _ => true;
     platform_system := Ok "Linux"%string;
     subprocess_run := fun _ => None;
     alarm_on := fun _ => true |}.

(** The state after [check_audio_library] has selected playsound. *)
Definition playsound_world : world :=
  {| AUDIO_LIBRARY := Some "playsound"%string; trace := [] |}.

(** What [play_audio_file] does there. *)
Definition playsound_played : list event :=
  [Call "import playsound" None; Call "playsound.playsound" None; Sleep 1000]%string.

(** ** The eyes of a face *)

Section Eyes.

Local Open Scope R_scope.

(** Lines 36-43. *)
Definition LEFT_EYE_LANDMARKS : list nat :=
  [33; 7; 163; 144; 145; 153; 154; 155; 133; 173; 157; 158; 159; 160; 161; 246]%nat.

Definition RIGHT_EYE_LANDMARKS : list nat :=
  [362; 382; 381; 380; 374; 373; 390; 249; 263; 466; 388; 387; 386; 385; 384; 398]%nat.

Definition LEFT_EYE_EAR_POINTS : list nat := [33; 159; 133; 145; 158; 153]%nat.

Definition RIGHT_EYE_EAR_POINTS : list nat := [362; 385; 263; 374; 386; 380]%nat.

(** Lines 326-330: the ratio of a face is the mean of the ratios of its two
    eyes; [None] is the [IndexError] of either. *)
Definition face_ear (landmarks : list landmark) : option R :=
  match calculate_eye_ratio landmarks LEFT_EYE_EAR_POINTS with
  | None => None
  | Some left_ear =>
      match calculate_eye_ratio landmarks RIGHT_EYE_EAR_POINTS with
      | None => None
      | Some right_ear => Some ((left_ear + right_ear) / 2)
      end
  end.

(** [int] on a number: the fraction is dropped, towards zero. *)
Definition int_ (r : R) : Z :=
  if Rle_dec 0 r then Int_part r else (- Int_part (- r))%Z.

(** Lines 265-278.  [frame_shape] is [frame.shape] of the global [frame]:
    its height and its width.  [None] is the [IndexError] of a landmark out
    of range. *)
Fixpoint extract_eye_coordinates (frame_shape : Z * Z) (landmarks : list landmark)
  (eye_landmarks : list nat) : option (list (Z * Z)) :=
  match eye_landmarks with
  | [] => Some []
  | point :: rest =>
      match nth_error landmarks point with
      | None => None
      | Some l =>
          match extract_eye_coordinates frame_shape landmarks rest with
          | None => None
          | Some coords =>
              Some ((int_ (x l * IZR (snd frame_shape)),
                     int_ (y l * IZR (fst frame_shape))) :: coords)
          end
      end
  end.

(** The same landmark in other units and from another origin. *)
Definition rescale (k dx dy : R) (l : landmark) : landmark :=
  {| x := k * x l + dx; y := k * y l + dy |}.

(** The row that [calculate_eye_ratio] makes of such a landmark. *)
Definition rescale_row (k dx dy : R) (c : R * R) : R * R :=
  (k * fst c + dx, k * snd c + dy).

(** A landmark inside the frame, in the units of the face mesh. *)
Definition normalized (l : landmark) : Prop :=
  0 <= x l <= 1 /\ 0 <= y l <= 1.

(** A pixel that is not outside of a frame of this shape. *)
Definition in_frame (frame_shape : Z * Z) (c : Z * Z) : Prop :=
  (0 <= fst c <= snd frame_shape /\ 0 <= snd c <= fst frame_shape)%Z.

(** Two landmarks: the lower left corner of the frame and its centre. *)
Definition corner_and_centre : list landmark :=
  [{| x := 0; y := 1 |}; {| x := 1 / 2; y := 1 / 2 |}].

End Eyes.

(** * Properties of the frame loop *)

Section LoopFacts.

Variable cfg : config.

Lemma Qltb_lt (a b : Q) : Qltb a b = true <-> (a < b)%Q.
Proof. unfold Qltb, Qlt. apply Z.ltb_lt. Qed.

Lemma Qltb_ge (a b : Q) : Qltb a b = false <-> (b <= a)%Q.
Proof. unfold Qltb, Qle. apply Z.ltb_ge. Qed.

Lemma not_below_ge (ear : Q) : ~ below cfg ear <-> (EYE_THRESHOLD cfg <= ear)%Q.
Proof.
  unfold below. split.
  - apply Qnot_lt_le.
  - apply Qle_not_lt.
Qed.

(** The two branches of line 343, on the counter and on the flag. *)
Lemma process_face_low (ear : Q) (p : process) :
  below cfg ear ->
  COUNTER (process_face cfg ear p) = S (COUNTER p) /\
  ALARM_ON (process_face cfg ear p)
  = ALARM_ON p || (NUM_CONSECUTIVE_FRAMES cfg <=? S (COUNTER p)).
Proof.
  intros Hlow. apply Qltb_lt in Hlow. unfold process_face. rewrite Hlow.
  cbn [set_COUNTER COUNTER ALARM_ON]. rewrite Nat.add_1_r.
  destruct (NUM_CONSECUTIVE_FRAMES cfg <=? S (COUNTER p));
    destruct (ALARM_ON p) eqn:Ha; cbn; rewrite ?Ha; auto.
Qed.

Lemma process_face_normal (ear : Q) (p : process) :
  (EYE_THRESHOLD cfg <= ear)%Q ->
  COUNTER (process_face cfg ear p) = 0 /\
  ALARM_ON (process_face cfg ear p) = false /\
  threads (process_face cfg ear p) = threads p /\
  ALARM_THREAD (process_face cfg ear p) = ALARM_THREAD p.
Proof.
  intros Hge. apply Qltb_ge in Hge. unfold process_face. rewrite Hge.
  destruct (ALARM_ON p) eqn:Ha; cbn; rewrite ?Ha; auto.
Qed.

Lemma process_frame_faces (r : detection) (p : process) :
  process_frame cfg r p = faces_run cfg (match r with Some faces => faces | None => [] end) p.
Proof. destruct r as [[|ear faces]|]; reflexivity. Qed.

(** The loop sees a sequence of frames as the sequence of the ratios of
    its detected faces. *)
Lemma run_ears_of (frames : list detection) (p : process) :
  run cfg frames p = faces_run cfg (ears_of frames) p.
Proof.
  revert p. induction frames as [|r frames IH]; intros p; [reflexivity|].
  cbn [run fold_left]. fold (run cfg frames (process_frame cfg r p)).
  rewrite IH, process_frame_faces. unfold faces_run.
  destruct r as [faces|]; cbn [ears_of]; [|reflexivity].
  now rewrite fold_left_app.
Qed.

Lemma faces_run_snoc (ears : list Q) (ear : Q) (p : process) :
  faces_run cfg (ears ++ [ear]) p = process_face cfg ear (faces_run cfg ears p).
Proof. unfold faces_run. now rewrite fold_left_app. Qed.

(** A suffix of a sequence that ends with [ear] is empty or ends with
    [ear]. *)
Lemma suffix_snoc (ears pre suf : list Q) (ear : Q) :
  ears ++ [ear] = pre ++ suf ->
  suf = [] \/ exists suf', suf = suf' ++ [ear] /\ ears = pre ++ suf'.
Proof.
  intros H. destruct suf as [|a suf0] using rev_ind; [now left|right].
  clear IHsuf0. rewrite app_assoc in H. apply app_inj_tail in H as [H1 H2].
  subst a. now exists suf0.
Qed.

(** From [initial], the counter is the length of a suffix of low ratios,
    and no such suffix is longer. *)
Lemma counter_suffix (ears : list Q) :
  (exists pre suf, ears = pre ++ suf /\ Forall (below cfg) suf /\
                   length suf = COUNTER (faces_run cfg ears initial)) /\
  (forall pre suf, ears = pre ++ suf -> Forall (below cfg) suf ->
                   length suf <= COUNTER (faces_run cfg ears initial)).
Proof.
  induction ears as [|ear ears [(pre & suf & Heq & Hlow & Hlen) Hmax]] using rev_ind.
  - split.
    + exists [], []. repeat split; constructor.
    + intros pre suf H _. symmetry in H. apply app_eq_nil in H as [_ ->]. cbn. lia.
  - rewrite faces_run_snoc.
    destruct (Qlt_le_dec ear (EYE_THRESHOLD cfg)) as [Hb|Hn].
    + destruct (process_face_low ear (faces_run cfg ears initial) Hb) as [Hc _].
      rewrite Hc. split.
      * exists pre, (suf ++ [ear]). repeat split.
        -- now rewrite Heq, app_assoc.
        -- apply Forall_app. split; [assumption|]. now constructor.
        -- rewrite length_app. cbn. lia.
      * intros pre' suf' H Hall.
        apply suffix_snoc in H as [->|(s & -> & H)]; [cbn; lia|].
        apply Forall_app in Hall as [Hall _].
        specialize (Hmax pre' s H Hall). rewrite length_app. cbn. lia.
    + destruct (process_face_normal ear (faces_run cfg ears initial) Hn) as [Hc _].
      rewrite Hc. split.
      * exists (ears ++ [ear]), []. repeat split; [now rewrite app_nil_r|constructor].
      * intros pre' suf' H Hall.
        apply suffix_snoc in H as [->|(s & -> & H)]; [cbn; lia|].
        apply Forall_app in Hall as [_ Hall]. inversion Hall as [|? ? Hb _]; subst.
        exfalso. now apply (Qle_not_lt _ _ Hn).
Qed.

(** The flag follows the counter, when at least one frame is asked for. *)
Lemma alarm_follows_counter (ears : list Q) :
  0 < NUM_CONSECUTIVE_FRAMES cfg ->
  ALARM_ON (faces_run cfg ears initial)
  = (NUM_CONSECUTIVE_FRAMES cfg <=? COUNTER (faces_run cfg ears initial)).
Proof.
  intros HN. induction ears as [|ear ears IH] using rev_ind.
  - cbn. symmetry. apply Nat.leb_gt. exact HN.
  - rewrite faces_run_snoc.
    destruct (Qlt_le_dec ear (EYE_THRESHOLD cfg)) as [Hb|Hn].
    + destruct (process_face_low ear (faces_run cfg ears initial) Hb) as [Hc Ha].
      rewrite Hc, Ha, IH.
      destruct (Nat.leb_spec (NUM_CONSECUTIVE_FRAMES cfg) (COUNTER (faces_run cfg ears initial)));
        destruct (Nat.leb_spec (NUM_CONSECUTIVE_FRAMES cfg) (S (COUNTER (faces_run cfg ears initial))));
        cbn; auto; lia.
    + destruct (process_face_normal ear (faces_run cfg ears initial) Hn) as (Hc & Ha & _).
      rewrite Hc, Ha. symmetry. apply Nat.leb_gt. exact HN.
Qed.

End LoopFacts.

Lemma ears_of_app (fs1 fs2 : list detection) :
  ears_of (fs1 ++ fs2) = ears_of fs1 ++ ears_of fs2.
Proof.
  induction fs1 as [|[faces|] fs1 IH]; cbn; [reflexivity| |assumption].
  now rewrite IH, app_assoc.
Qed.

Lemma faces_run_app (cfg : config) (ears1 ears2 : list Q) (p : process) :
  faces_run cfg (ears1 ++ ears2) p = faces_run cfg ears2 (faces_run cfg ears1 p).
Proof. unfold faces_run. apply fold_left_app. Qed.

(** Low ratios only count up. *)
Lemma faces_run_low (cfg : config) (ears : list Q) (p : process) :
  Forall (below cfg) ears ->
  COUNTER (faces_run cfg ears p) = COUNTER p + length ears.
Proof.
  revert p. induction ears as [|ear ears IH]; intros p Hall; cbn; [lia|].
  inversion Hall as [|? ? Hb Hrest]; subst.
  fold (faces_run cfg ears (process_face cfg ear p)). rewrite (IH _ Hrest).
  destruct (process_face_low cfg ear p Hb) as [-> _]. lia.
Qed.

(** C1. After any sequence of frames, [COUNTER] is the length of the longest
    suffix of ratios strictly below [EYE_THRESHOLD] among the ratios of the
    frames with a face: it is the length of such a suffix and no such suffix
    is longer.  A ratio at or above the threshold sets it to 0 whatever the
    state (so whatever [ALARM_ON]), a ratio below adds one, and a frame
    without a face can be taken out of the sequence. *)
Theorem counter_is_longest_low_suffix (cfg : config) (frames : list detection) :
  let p := run cfg frames initial in
  (exists pre suf, ears_of frames = pre ++ suf /\ Forall (below cfg) suf /\
                   length suf = COUNTER p) /\
  (forall pre suf, ears_of frames = pre ++ suf -> Forall (below cfg) suf ->
                   length suf <= COUNTER p) /\
  (forall (q : process) (ear : Q),
     (EYE_THRESHOLD cfg <= ear)%Q -> COUNTER (process_face cfg ear q) = 0) /\
  (forall (q : process) (ear : Q),
     below cfg ear -> COUNTER (process_face cfg ear q) = S (COUNTER q)) /\
  (forall (fs1 fs2 : list detection) (r : detection),
     r = None \/ r = Some [] ->
     run cfg (fs1 ++ r :: fs2) initial = run cfg (fs1 ++ fs2) initial).
Proof.
  cbv zeta. rewrite run_ears_of.
  destruct (counter_suffix cfg (ears_of frames)) as [Hex Hmax].
  split; [exact Hex|]. split; [exact Hmax|]. split; [|split].
  - intros q ear Hge. now destruct (process_face_normal cfg ear q Hge).
  - intros q ear Hb. now destruct (process_face_low cfg ear q Hb).
  - intros fs1 fs2 r Hr. rewrite !run_ears_of, !ears_of_app.
    destruct Hr as [-> | ->]; reflexivity.
Qed.

(** C2. From the initial state and for a positive [NUM_CONSECUTIVE_FRAMES],
    after every sequence of frames [ALARM_ON] is true exactly when [COUNTER]
    is at least [NUM_CONSECUTIVE_FRAMES]; and exactly when the counter had
    reached [NUM_CONSECUTIVE_FRAMES] at some point of the sequence and every
    ratio processed since is below the threshold. *)
Theorem alarm_iff_counter_reached (cfg : config) (frames : list detection) :
  0 < NUM_CONSECUTIVE_FRAMES cfg ->
  let p := run cfg frames initial in
  (ALARM_ON p = true <-> NUM_CONSECUTIVE_FRAMES cfg <= COUNTER p) /\
  (ALARM_ON p = true <->
   exists fs1 fs2, frames = fs1 ++ fs2 /\
                   NUM_CONSECUTIVE_FRAMES cfg <= COUNTER (run cfg fs1 initial) /\
                   Forall (below cfg) (ears_of fs2)).
Proof.
  intros HN. cbv zeta.
  assert (Hiff : forall fs, ALARM_ON (run cfg fs initial) = true <->
                            NUM_CONSECUTIVE_FRAMES cfg <= COUNTER (run cfg fs initial)).
  { intros fs. rewrite run_ears_of, (alarm_follows_counter cfg _ HN). apply Nat.leb_le. }
  split; [apply Hiff|]. rewrite Hiff. split.
  - intros H. exists frames, []. rewrite app_nil_r. repeat split; [assumption|constructor].
  - intros (fs1 & fs2 & -> & Hreach & Hlow).
    rewrite run_ears_of, ears_of_app, faces_run_app, (faces_run_low cfg _ _ Hlow).
    rewrite run_ears_of in Hreach. lia.
Qed.

Lemma alarm_iff_counter_reached_witness :
  0 < NUM_CONSECUTIVE_FRAMES scenario_config /\
  (ALARM_ON (run scenario_config (firstn 6 scenario) initial) = true <->
   NUM_CONSECUTIVE_FRAMES scenario_config
   <= COUNTER (run scenario_config (firstn 6 scenario) initial)).
Proof.
  split.
  - cbn. lia.
  - apply (alarm_iff_counter_reached scenario_config (firstn 6 scenario)). cbn. lia.
Defined.

(** C3. For a positive [NUM_CONSECUTIVE_FRAMES], the flag goes from false to
    true on a face exactly when that face brings the counter to
    [NUM_CONSECUTIVE_FRAMES]: not while the counter is smaller, and not again
    while it grows beyond.  With threshold 0.68 and 5 frames, the ratios
    0.7, 0.5, 0.5, 0.5, 0.5, 0.5, 0.7 give the counters 0, 1, 2, 3, 4, 5, 0,
    the flag being true after the ratio of index 5 only. *)
Theorem alarm_activation_timing :
  (forall (cfg : config) (frames : list detection) (ear : Q),
     0 < NUM_CONSECUTIVE_FRAMES cfg ->
     let p := run cfg frames initial in
     let q := process_face cfg ear p in
     (ALARM_ON p = false /\ ALARM_ON q = true) <->
     COUNTER q = NUM_CONSECUTIVE_FRAMES cfg) /\
  map COUNTER (states scenario_config scenario initial) = [0; 1; 2; 3; 4; 5; 0] /\
  map ALARM_ON (states scenario_config scenario initial)
  = [false; false; false; false; false; true; false].
Proof.
  split; [|split; reflexivity].
  intros cfg frames ear HN. cbv zeta. rewrite run_ears_of.
  set (p := faces_run cfg (ears_of frames) initial).
  pose proof (alarm_follows_counter cfg (ears_of frames) HN) as Hp. fold p in Hp.
  destruct (Qlt_le_dec ear (EYE_THRESHOLD cfg)) as [Hb|Hn].
  - destruct (process_face_low cfg ear p Hb) as [Hc Ha]. rewrite Hc, Ha, Hp.
    destruct (Nat.leb_spec (NUM_CONSECUTIVE_FRAMES cfg) (COUNTER p));
      destruct (Nat.leb_spec (NUM_CONSECUTIVE_FRAMES cfg) (S (COUNTER p)));
      cbn; split; try (intros [? ?]); try intros ?; try split;
      try discriminate; try reflexivity; lia.
  - destruct (process_face_normal cfg ear p Hn) as (Hc & Ha & _). rewrite Hc, Ha.
    split; [intros [_ ?]; discriminate | lia].
Qed.

Lemma alarm_activation_timing_witness :
  0 < NUM_CONSECUTIVE_FRAMES scenario_config /\
  ((ALARM_ON (run scenario_config (firstn 5 scenario) initial) = false /\
    ALARM_ON (process_face scenario_config 0.5%Q
                (run scenario_config (firstn 5 scenario) initial)) = true) <->
   COUNTER (process_face scenario_config 0.5%Q
              (run scenario_config (firstn 5 scenario) initial))
   = NUM_CONSECUTIVE_FRAMES scenario_config).
Proof.
  split.
  - cbn. lia.
  - apply (proj1 alarm_activation_timing scenario_config (firstn 5 scenario) 0.5%Q).
    cbn. lia.
Defined.

(** C4. A frame without a face, [None] or an empty list, leaves the state as
    it is: [COUNTER] is neither incremented nor reset, [ALARM_ON] keeps its
    value, so an alarm that was active stays active, and no thread is
    started. *)
Theorem no_face_frame_is_noop (cfg : config) (p : process) :
  (process_frame cfg None p = p /\ process_frame cfg (Some []) p = p) /\
  (forall r : detection,
     r = None \/ r = Some [] ->
     COUNTER (process_frame cfg r p) = COUNTER p /\
     ALARM_ON (process_frame cfg r p) = ALARM_ON p /\
     threads (process_frame cfg r p) = threads p /\
     (ALARM_ON p = true -> ALARM_ON (process_frame cfg r p) = true)).
Proof.
  split; [split; reflexivity|].
  intros r [-> | ->]; cbn; auto.
Qed.

(** ** The threads the frame loop starts *)








(** From the initial state, with the constants of the scenario: five low
    ratios start the alarm, a sixth one asks again, and one thread is
    alive. *)
Example two_requests_one_thread :
  alive (run scenario_config (map (fun ear => Some [ear]) [0.5; 0.5; 0.5; 0.5; 0.5; 0.5]%Q)
           initial) = 1.
Proof. reflexivity. Qed.

(** * Properties of the eye aspect ratio *)

Section GeometryFacts.

Local Open Scope R_scope.

Lemma euclidean_nonneg (u v : R * R) : 0 <= euclidean u v.
Proof. apply sqrt_pos. Qed.

(** The value of a distance whose square is known. *)
Lemma euclidean_value (u v : R * R) (d : R) :
  0 <= d ->
  (fst u - fst v) * (fst u - fst v) + (snd u - snd v) * (snd u - snd v) = d * d ->
  euclidean u v = d.
Proof.
  intros Hd Hsq. unfold euclidean. rewrite Hsq. now apply sqrt_square.
Qed.

(** On six points read in their order the function raises nothing, and
    divides the distances of the points 1-5 and 2-4 by twice the distance
    of the points 0-3. *)
Lemma calculate_eye_ratio_six (p0 p1 p2 p3 p4 p5 : R * R) :
  calculate_eye_ratio (six_points p0 p1 p2 p3 p4 p5) in_order
  = Some (if Rlt_dec 0 (euclidean p0 p3)
          then (euclidean p1 p5 + euclidean p2 p4) / (2 * euclidean p0 p3)
          else 0).
Proof.
  destruct p0, p1, p2, p3, p4, p5. reflexivity.
Qed.

(** Whatever it is given, the function returns no negative number. *)
Lemma calculate_eye_ratio_nonneg (landmarks : list landmark) (eye_points : list nat) (ear : R) :
  calculate_eye_ratio landmarks eye_points = Some ear -> 0 <= ear.
Proof.
  unfold calculate_eye_ratio.
  destruct (extract_coords landmarks eye_points) as [coords|]; [|discriminate].
  destruct (nth_error coords 1) as [c1|]; [|discriminate].
  destruct (nth_error coords 5) as [c5|]; [|discriminate].
  destruct (nth_error coords 2) as [c2|]; [|discriminate].
  destruct (nth_error coords 4) as [c4|]; [|discriminate].
  destruct (nth_error coords 0) as [c0|]; [|discriminate].
  destruct (nth_error coords 3) as [c3|]; [|discriminate].
  intros H. injection H as <-.
  destruct (Rlt_dec 0 (euclidean c0 c3)) as [Hpos|_]; [|lra].
  pose proof (euclidean_nonneg c1 c5). pose proof (euclidean_nonneg c2 c4).
  apply Rmult_le_pos; [lra|].
  left. apply Rinv_0_lt_compat. lra.
Qed.

(** C5. On the eye with the corners (0,0) and (12,0), the upper points (3,4)
    and (9,4) and the lower points (3,-4) and (9,-4), given in the order
    [outer corner, top, inner corner, bottom, top, bottom] of line 41, the
    two top-bottom distances are 8 and the corners are 12 apart, so the
    ratio of the comments is 16/24 = 2/3; [calculate_eye_ratio] returns
    (10 + 5) / (2 * 5) = 3/2, from the distances between the points 1-5,
    2-4 and 0-3. *)
Theorem calculate_eye_ratio_mixes_points :
  calculate_eye_ratio (six_points (0, 0) (3, 4) (12, 0) (3, -4) (9, 4) (9, -4)) in_order
  = Some (3 / 2) /\
  documented_eye_ratio (0, 0) (3, 4) (12, 0) (3, -4) (9, 4) (9, -4) = 2 / 3.
Proof.
  split.
  - rewrite calculate_eye_ratio_six.
    rewrite (euclidean_value (3, 4) (9, -4) 10) by (cbn [fst snd]; lra).
    rewrite (euclidean_value (12, 0) (9, 4) 5) by (cbn [fst snd]; lra).
    rewrite (euclidean_value (0, 0) (3, -4) 5) by (cbn [fst snd]; lra).
    destruct (Rlt_dec 0 5) as [_|Hn]; [f_equal; lra|exfalso; lra].
  - unfold documented_eye_ratio.
    rewrite (euclidean_value (0, 0) (12, 0) 12) by (cbn [fst snd]; lra).
    rewrite (euclidean_value (3, 4) (3, -4) 8) by (cbn [fst snd]; lra).
    rewrite (euclidean_value (9, 4) (9, -4) 8) by (cbn [fst snd]; lra).
    destruct (Rlt_dec 0 12) as [_|Hn]; [lra|exfalso; lra].
Qed.

(** With both corners at the same place the distance between them is zero
    and the ratio of the comments is 0; the function divides by the
    distance of the points 0-3 and returns 5/3. *)
Lemma calculate_eye_ratio_equal_corners :
  calculate_eye_ratio (six_points (0, 0) (0, 4) (0, 0) (3, 0) (3, 4) (3, 0)) in_order
  = Some (5 / 3) /\
  documented_eye_ratio (0, 0) (0, 4) (0, 0) (3, 0) (3, 4) (3, 0) = 0.
Proof.
  split.
  - rewrite calculate_eye_ratio_six.
    rewrite (euclidean_value (0, 4) (3, 0) 5) by (cbn [fst snd]; lra).
    rewrite (euclidean_value (0, 0) (3, 4) 5) by (cbn [fst snd]; lra).
    rewrite (euclidean_value (0, 0) (3, 0) 3) by (cbn [fst snd]; lra).
    destruct (Rlt_dec 0 3) as [_|Hn]; [f_equal; lra|exfalso; lra].
  - unfold documented_eye_ratio.
    rewrite (euclidean_value (0, 0) (0, 0) 0) by (cbn [fst snd]; lra).
    destruct (Rlt_dec 0 0) as [Hn|_]; [exfalso; lra|reflexivity].
Qed.

(** With the points 0 and 3 at the same place the function returns 0,
    though the corners are 4 apart and the eye is open. *)
Lemma calculate_eye_ratio_zero_on_open_eye :
  calculate_eye_ratio (six_points (0, 0) (1, 1) (4, 0) (0, 0) (3, 1) (3, -1)) in_order
  = Some 0 /\
  documented_eye_ratio (0, 0) (1, 1) (4, 0) (0, 0) (3, 1) (3, -1) <> 0.
Proof.
  split.
  - rewrite calculate_eye_ratio_six.
    rewrite (euclidean_value (0, 0) (0, 0) 0) by (cbn [fst snd]; lra).
    destruct (Rlt_dec 0 0) as [Hn|_]; [exfalso; lra|reflexivity].
  - unfold documented_eye_ratio.
    rewrite (euclidean_value (0, 0) (4, 0) 4) by (cbn [fst snd]; lra).
    rewrite (euclidean_value (3, 1) (3, -1) 2) by (cbn [fst snd]; lra).
    destruct (Rlt_dec 0 4) as [_|Hn]; [|exfalso; lra].
    pose proof (euclidean_nonneg (1, 1) (0, 0)). lra.
Qed.

End GeometryFacts.

(** * Properties of the alarm *)

(** The tests on strings of lines 104, 211 and 217. *)
Example source_file_is_wav : endswith (lower source_ALARM_FILE) ".wav" = true.
Proof. reflexivity. Qed.

Example upper_case_extension : endswith (lower "C:/alarm/HORN.WAV") ".wav" = true.
Proof. reflexivity. Qed.

Example mp3_is_not_wav : endswith (lower "alarm.mp3") ".wav" = false.
Proof. reflexivity. Qed.

Example linux_in_system : contains "linux" (lower "Linux") = true.
Proof. reflexivity. Qed.

Example darwin_not_linux : contains "linux" (lower "Darwin") = false.
Proof. reflexivity. Qed.

(** ** Traces *)

Lemma extend_nil (w : world) : extend w [] = w.
Proof. destruct w. unfold extend. cbn. now rewrite app_nil_r. Qed.

Lemma extend_extend (w : world) (a b : list event) :
  extend (extend w a) b = extend w (a ++ b).
Proof. unfold extend. cbn. now rewrite app_assoc. Qed.

Lemma unchanged {A : Type} (r : result A) (w : world) : (r, w) = (r, extend w []).
Proof. now rewrite extend_nil. Qed.

Lemma pick_app {A : Type} (classify : event -> option A) (a b : list event) :
  pick classify (a ++ b) = pick classify a ++ pick classify b.
Proof.
  induction a as [|ev a IH]; [reflexivity|].
  cbn. destruct (classify ev); cbn; now rewrite IH.
Qed.

Lemma mechanisms_app (a b : list event) :
  mechanisms (a ++ b) = mechanisms a ++ mechanisms b.
Proof. unfold mechanisms. now rewrite pick_app, map_app. Qed.

Lemma backends_app (a b : list event) :
  backends (a ++ b) = backends a ++ backends b.
Proof. unfold backends. now rewrite pick_app, map_app. Qed.

Lemma raised_app (a b : list event) : raised (a ++ b) = raised a || raised b.
Proof. apply existsb_app. Qed.

Lemma raised_in_app (names : list string) (a b : list event) :
  raised_in names (a ++ b) = raised_in names a || raised_in names b.
Proof. apply existsb_app. Qed.

Lemma succeeded_app (f : string) (a b : list event) :
  succeeded f (a ++ b) = succeeded f a || succeeded f b.
Proof. apply existsb_app. Qed.

Lemma touches_file_app (a b : list event) :
  touches_file (a ++ b) = touches_file a || touches_file b.
Proof. apply existsb_app. Qed.

Lemma print_failed_app (a b : list event) :
  print_failed (a ++ b) = print_failed a || print_failed b.
Proof. apply existsb_app. Qed.

Lemma bell_writes_app (a b : list event) :
  bell_writes (a ++ b) = bell_writes a + bell_writes b.
Proof. unfold bell_writes. now rewrite filter_app, length_app. Qed.

Lemma sleep_total_app (a b : list event) :
  sleep_total (a ++ b) = sleep_total a + sleep_total b.
Proof.
  induction a as [|ev a IH]; [reflexivity|].
  destruct ev; cbn; rewrite IH; lia.
Qed.

Lemma short_sleeps_app (a b : list event) :
  short_sleeps (a ++ b) = short_sleeps a && short_sleeps b.
Proof. apply forallb_app. Qed.

(** ** Ranks *)

Lemma all_are_forall (k : nat) (ns : list nat) :
  all_are k ns = true <-> Forall (eq k) ns.
Proof.
  unfold all_are. rewrite forallb_forall, Forall_forall.
  split; intros H n Hin; specialize (H n Hin).
  - now apply Nat.eqb_eq.
  - now apply Nat.eqb_eq.
Qed.

Lemma all_are_in (k n : nat) (ns : list nat) :
  all_are k ns = true -> In n ns -> n = k.
Proof.
  rewrite all_are_forall, Forall_forall. intros H Hin. symmetry. now apply H.
Qed.

Lemma all_are_app (k : nat) (a b : list nat) :
  all_are k (a ++ b) = all_are k a && all_are k b.
Proof. apply forallb_app. Qed.

Lemma all_are_le (k j : nat) (ns : list nat) :
  all_are k ns = true -> k <= j -> Forall (fun n => n <= j) ns.
Proof.
  rewrite all_are_forall. intros H Hle. eapply Forall_impl; [|exact H].
  cbn. intros n <-. exact Hle.
Qed.

Lemma all_are_ge (k j : nat) (ns : list nat) :
  all_are k ns = true -> j <= k -> Forall (fun n => j <= n) ns.
Proof.
  rewrite all_are_forall. intros H Hle. eapply Forall_impl; [|exact H].
  cbn. intros n <-. exact Hle.
Qed.

Lemma ascending_app (k : nat) (l1 l2 : list nat) :
  ascending l1 = true -> ascending l2 = true ->
  Forall (fun n => n <= k) l1 -> Forall (fun n => k <= n) l2 ->
  ascending (l1 ++ l2) = true.
Proof.
  intros H1 H2 Hle Hge. induction l1 as [|n l1 IH]; [exact H2|].
  cbn in H1 |- *. apply andb_true_iff in H1 as [Hn Hrest].
  inversion Hle as [|? ? Hk Hle']; subst.
  rewrite forallb_app, Hn, (IH Hrest Hle'). cbn. rewrite andb_true_r.
  apply forallb_forall. intros n' Hin. apply Nat.leb_le.
  rewrite Forall_forall in Hge. specialize (Hge n' Hin). lia.
Qed.

Lemma all_are_ascending (k : nat) (ns : list nat) :
  all_are k ns = true -> ascending ns = true.
Proof.
  rewrite all_are_forall. induction ns as [|n ns IH]; [reflexivity|].
  intros H. inversion H as [|? ? Hn Hns]; subst. cbn. rewrite (IH Hns), andb_true_r.
  apply forallb_forall. intros n' Hin. rewrite Forall_forall in Hns.
  rewrite <- (Hns n' Hin). apply Nat.leb_refl.
Qed.

Lemma in_nonempty {A : Type} (a : A) (l : list A) : In a l -> l <> [].
Proof. destruct l; [contradiction|discriminate]. Qed.

Lemma all_are_nil (k : nat) : all_are k [] = true.
Proof. reflexivity. Qed.

(** Only the terminal bell writes the bell character. *)
Lemma bell_writes_other (m : mechanism) (added : list event) :
  all_are (rank m) (mechanisms added) = true -> m <> TerminalBell ->
  bell_writes added = 0.
Proof.
  intros H Hm. induction added as [|ev added IH]; [reflexivity|].
  unfold bell_writes, mechanisms in *. cbn [filter pick] in *.
  destruct ev as [f o| | |]; cbn [mechanism_of] in H.
  - destruct (String.eqb_spec f "sys.stdout.write") as [->|_].
    + cbn in H. apply andb_true_iff in H as [H _]. apply Nat.eqb_eq in H.
      destruct m; cbn in H; (discriminate || contradiction).
    + apply IH. destruct (mechanism_of (Call f o)) eqn:Hmo; cbn [mechanism_of] in Hmo;
        rewrite Hmo in H; [|assumption].
      cbn in H. now apply andb_true_iff in H.
  - now apply IH.
  - apply IH. destruct (String.eqb line "DROWSINESS ALERT!"); [|assumption].
    cbn in H. now apply andb_true_iff in H.
  - apply IH. destruct (String.eqb line "DROWSINESS ALERT!"); [|assumption].
    cbn in H. now apply andb_true_iff in H.
Qed.

(** A stage that uses a mechanism uses its own. *)
Lemma uses_used (m : mechanism) (added : list event) :
  all_are (rank m) (mechanisms added) = true ->
  forall m' : mechanism, used m' added <-> m' = m /\ uses added = true.
Proof.
  intros H m'. unfold used, uses. split.
  - intros Hin. pose proof (all_are_in _ _ _ H Hin) as Hr. split.
    + destruct m, m'; cbn in Hr; congruence.
    + destruct (mechanisms added); [contradiction|reflexivity].
  - intros [-> Hu]. destruct (mechanisms added) as [|n ns]; [discriminate|].
    cbn in H. apply andb_true_iff in H as [Hn _]. apply Nat.eqb_eq in Hn. subst.
    now left.
Qed.

(** ** Running a function against the outside *)

(** The oracle a run is waiting for. *)
Ltac scrutinee t :=
  lazymatch t with
  | (let (_, _) := ?x in _) => scrutinee x
  | match ?x with Some _ => _ | None => _ end => scrutinee x
  | match ?x with Ok _ => _ | Raise _ => _ end => scrutinee x
  | match ?x with Normal => _ | Return _ => _ end => scrutinee x
  | match ?x with ImportError => _ | _ => _ end => scrutinee x
  | if ?x then _ else _ => scrutinee x
  | negb ?x => scrutinee x
  | andb ?x _ => scrutinee x
  | orb ?x _ => scrutinee x
  | ?f ?a =>
      lazymatch f with
      | match ?x with Normal => _ | Return _ => _ end => scrutinee x
      | match ?x with Some _ => _ | None => _ end => scrutinee x
      | match ?x with Ok _ => _ | Raise _ => _ end => scrutinee x
      | match ?x with ImportError => _ | _ => _ end => scrutinee x
      | if ?x then _ else _ => scrutinee x
      | _ => t
      end
  | _ => t
  end.

(** One case distinction, on the outcome the run needs next. *)
Ltac split_on l :=
  let x := scrutinee l in
  lazymatch x with
  | (_, _) => fail
  | wait_while_busy _ _ _ _ => fail
  | _ => destruct x eqn:?; cbn
  end.

Ltac split_head :=
  lazymatch goal with
  | |- exists _ _, ?l = _ /\ _ => split_on l
  | |- exists _, ?l = _ /\ _ => split_on l
  end.

Ltac unfold_monad :=
  unfold try_except, import_, call, call_value, bind, emit, sleep, print,
    continue_, return_, normal, raise, ret, get_AUDIO_LIBRARY, set_AUDIO_LIBRARY, then_.

(** The events of a run, read off the state it has reached. *)
Ltac read_trace :=
  first [ apply unchanged
        | unfold extend; cbn [AUDIO_LIBRARY trace]; rewrite <- ?app_assoc; reflexivity ].

(** The run is over: read the result and the events off it. *)
Ltac finish_run :=
  lazymatch goal with
  | |- exists _ _, _ = _ /\ _ => do 2 eexists; split; [read_trace|]
  | |- exists _, _ = _ /\ _ => eexists; split; [read_trace|]
  end.

Lemma then_normal {A : Type} (s1 s2 : M (completion A)) (w w1 : world) :
  s1 w = (Ok Normal, w1) -> then_ s1 s2 w = s2 w1.
Proof. intros H. unfold then_, bind. now rewrite H. Qed.

Lemma then_return {A : Type} (s1 s2 : M (completion A)) (w w1 : world) (a : A) :
  s1 w = (Ok (Return a), w1) -> then_ s1 s2 w = (Ok (Return a), w1).
Proof. intros H. unfold then_, bind. now rewrite H. Qed.

Lemma then_raise {A : Type} (s1 s2 : M (completion A)) (w w1 : world) (x : exn) :
  s1 w = (Raise x, w1) -> then_ s1 s2 w = (Raise x, w1).
Proof. intros H. unfold then_, bind. now rewrite H. Qed.

(** ** The stages of the loop body *)

Lemma beep_stage_spec (e : env) (w : world) :
  exists added,
    beep_stage e w = (beep_outcome e, extend w added) /\ beep_facts e w added.
Proof.
  unfold beep_facts, beep_stage, beep_outcome, after_print, sounds. unfold_monad. cbn.
  repeat split_head.
  all: finish_run; repeat split; reflexivity.
Qed.

Lemma bell_stage_spec (e : env) (w : world) :
  exists added,
    bell_stage e w = (bell_outcome e, extend w added) /\ bell_facts e w added.
Proof.
  unfold bell_facts, bell_stage, bell_outcome, after_print, sounds, ring_bell. unfold_monad. cbn.
  repeat split_head.
  all: finish_run; repeat split; reflexivity.
Qed.

Lemma command_stage_spec (e : env) (w : world) :
  exists added,
    command_stage e w = (command_outcome e, extend w added) /\ command_facts e w added.
Proof.
  unfold command_facts, command_stage, command_outcome, command_raises, after_print,
    sounds.
  unfold_monad. cbn.
  repeat split_head.
  all: finish_run; repeat split; reflexivity.
Qed.

Lemma visual_stage_spec (e : env) (w : world) :
  exists added,
    visual_stage e w = (visual_outcome e, extend w added) /\ visual_facts e w added.
Proof.
  unfold visual_facts, visual_stage, visual_outcome, after_print, sounds. unfold_monad. cbn.
  repeat split_head.
  all: finish_run; repeat split; try reflexivity; try discriminate; cbn; lia.
Qed.

(** ** Playing the file *)

(** The wait of lines 132-133 uses no mechanism and prints nothing; it
    raises exactly when a call of [get_busy] does, and sleeps a tenth of a
    second per test of [get_busy] at most, and not at all once [ALARM_ON]
    is read as [False]. *)
Lemma wait_while_busy_spec (e : env) (polls : list (result bool)) (k : nat) (w : world) :
  exists r added,
    wait_while_busy e k polls w = (r, extend w added) /\
    (mechanisms added = [] /\
     raised added = is_raise r /\
     print_failed added = false /\
     short_sleeps added = true /\
     sleep_total added <= 100 * length polls /\
     ((forall j, alarm_on e (AtPoll j) = false) -> sleep_total added = 0)).
Proof.
  revert k w. induction polls as [|r polls IH]; intros k w.
  - cbn. unfold_monad. cbn. finish_run. repeat split; cbn; lia.
  - cbn [wait_while_busy]. unfold_monad. destruct r as [[|]|x]; cbn.
    + destruct (alarm_on e (AtPoll k)) eqn:Hon.
      * match goal with |- context [wait_while_busy e ?k' polls ?w'] =>
          destruct (IH k' w') as (r & added & Heq & Hm & Hr & Hp & Hs & Ht & _);
          rewrite Heq end.
        exists r. eexists. split; [read_trace|].
        rewrite ?mechanisms_app, ?raised_app, ?print_failed_app, ?short_sleeps_app,
          ?sleep_total_app.
        cbn.
        rewrite ?mechanisms_app, ?raised_app, ?print_failed_app, ?short_sleeps_app,
          ?sleep_total_app.
        cbn. rewrite Hm, Hr, Hp, Hs. repeat split; auto; try lia.
        intros Hoff. rewrite Hoff in Hon. discriminate.
      * finish_run. repeat split; cbn; lia.
    + finish_run. repeat split; cbn; lia.
    + finish_run. repeat split; cbn; lia.
Qed.

Ltac step_wait :=
  lazymatch goal with
  | |- context [wait_while_busy ?e1 ?k ?l ?w1] =>
      let rw := fresh "rw" in
      let aw := fresh "aw" in
      let Heq := fresh "Hwait" in
      let Hm := fresh "Hmech" in
      let Hr := fresh "Hraised" in
      let Hp := fresh "Hprint" in
      let Hs := fresh "Hshort" in
      let Ht := fresh "Htotal" in
      let Ho := fresh "Hoff" in
      destruct (wait_while_busy_spec e1 l k w1)
        as (rw & aw & Heq & Hm & Hr & Hp & Hs & Ht & Ho);
      rewrite Heq; destruct rw as [[]|?]; cbn in Hr |- *
  end.

(** The facts about the events of the wait, put to use. *)
Ltac use_wait :=
  rewrite ?mechanisms_app, ?raised_app, ?print_failed_app, ?short_sleeps_app,
    ?sleep_total_app;
  cbn;
  rewrite ?mechanisms_app, ?raised_app, ?print_failed_app, ?short_sleeps_app,
    ?sleep_total_app;
  cbn;
  repeat match goal with
         | H : mechanisms _ = [] |- _ => rewrite H
         | H : raised _ = _ |- _ => rewrite H
         | H : print_failed _ = false |- _ => rewrite H
         | H : short_sleeps _ = true |- _ => rewrite H
         end;
  cbn.

(** [play_audio_file] uses the file only; what it returns or raises is
    [play_result]; it comes to a call on the file exactly when [plays]
    says so, and does nothing when [AUDIO_LIBRARY] is no name it knows.  It
    sleeps a second at most besides the wait of pygame, and nothing besides
    that wait when it does not return [True]. *)
Lemma play_audio_file_spec (e : env) (w : world) :
  exists r added,
    play_audio_file e w = (r, extend w added) /\
    (r = play_result e (AUDIO_LIBRARY w) added /\
     all_are (rank AudioFile) (mechanisms added) = true /\
     uses added = plays e (AUDIO_LIBRARY w) /\
     print_failed added = is_raise r /\
     (known_library (AUDIO_LIBRARY w) = false -> added = []) /\
     short_sleeps added = true /\
     sleep_total added
     <= 100 * length (pygame_mixer_get_busy e)
        + match r with Ok true => 1000 | _ => 0 end /\
     ((forall j, alarm_on e (AtPoll j) = false) ->
      sleep_total added = match r with Ok true => sleep_total added | _ => 0 end /\
      sleep_total added <= 1000)).
Proof.
  unfold play_audio_file, play_result, known_library, plays, uses. unfold_monad. cbn.
  repeat first [split_head | step_wait].
  all: finish_run.
  all: try solve [repeat split; first [reflexivity | discriminate | intros; cbn; lia]].
  all: use_wait.
  all: repeat split; try reflexivity; try discriminate; try lia.
  all: try (specialize (Hoff H); lia).
Qed.

Lemma uses_app (a b : list event) : uses (a ++ b) = uses a || uses b.
Proof.
  unfold uses. rewrite mechanisms_app.
  destruct (mechanisms a); [|reflexivity]. cbn. now destruct (mechanisms b).
Qed.

(** Lines 171-174: the stage of the file is the playback and, after a
    playback that returned [True], the half second of line 173. *)
Lemma file_stage_spec (e : env) (w : world) :
  exists added,
    file_stage e w = (file_outcome e w, extend w added) /\ file_facts e w added.
Proof.
  unfold file_facts, file_stage, file_outcome, sounds. unfold bind at 1. unfold get_AUDIO_LIBRARY.
  destruct (truthy (AUDIO_LIBRARY w)) eqn:Ht.
  - destruct (play_audio_file_spec e w)
      as (r & a & Heq & _ & Honly & Huses & Hprint & _ & Hshort & Htotal & Hoff).
    unfold bind at 1. rewrite Heq. cbn [fst andb]. destruct r as [[|]|x].
    + unfold_monad. cbn. exists (a ++ [Sleep 500]). split; [now rewrite <- app_assoc|].
      rewrite mechanisms_app, print_failed_app, uses_app, short_sleeps_app,
        sleep_total_app, Hshort, Hprint, Huses.
      cbn. rewrite app_nil_r, orb_false_r.
      repeat split; auto; try discriminate; try lia.
      intros Hflag. destruct (Hoff Hflag). lia.
    + unfold normal, ret. exists a. split; [reflexivity|].
      repeat split; auto; try discriminate; try lia.
      intros Hflag. destruct (Hoff Hflag). lia.
    + exists a. split; [reflexivity|].
      repeat split; auto; try discriminate; try lia.
      intros Hflag. destruct (Hoff Hflag). lia.
  - unfold normal, ret. exists []. rewrite extend_nil.
    repeat split; auto; cbn; lia.
Qed.

(** One turn of the loop, stage by stage: it ends as [turn_outcome] says,
    and its events are those of the stages it reaches, in their order. *)
Lemma alarm_iteration_stages (e : env) (w : world) :
  exists a0 a1 a2 a3 a4,
    alarm_iteration e w = (turn_outcome e w, extend w (a0 ++ a1 ++ a2 ++ a3 ++ a4)) /\
    file_facts e w a0 /\
    part e w ToneBeep (beep_facts e w) a1 /\
    part e w TerminalBell (bell_facts e w) a2 /\
    part e w ShellCommand (command_facts e w) a3 /\
    part e w VisualAlert (visual_facts e w) a4.
Proof.
  unfold alarm_iteration, turn_outcome, part, reached, stages.
  cbn [rank firstn forallb first_to_end].
  destruct (file_stage_spec e w) as (a0 & E0 & F0).
  destruct (file_outcome e w) as [[|[]]|x0] eqn:O0; cbn [goes_on andb].
  2: { rewrite (then_return _ _ _ _ _ E0). exists a0, [], [], [], [].
       rewrite !app_nil_r. auto 10. }
  2: { rewrite (then_raise _ _ _ _ _ E0). exists a0, [], [], [], [].
       rewrite !app_nil_r. auto 10. }
  rewrite (then_normal _ _ _ _ E0).
  destruct (beep_stage_spec e (extend w a0)) as (a1 & E1 & F1).
  rewrite extend_extend in E1.
  destruct (beep_outcome e) as [[|[]]|x1] eqn:O1; cbn [goes_on andb].
  2: { rewrite (then_return _ _ _ _ _ E1). exists a0, a1, [], [], [].
       rewrite !app_nil_r. auto 10. }
  2: { rewrite (then_raise _ _ _ _ _ E1). exists a0, a1, [], [], [].
       rewrite !app_nil_r. auto 10. }
  rewrite (then_normal _ _ _ _ E1).
  destruct (bell_stage_spec e (extend w (a0 ++ a1))) as (a2 & E2 & F2).
  rewrite extend_extend in E2.
  destruct (bell_outcome e) as [[|[]]|x2] eqn:O2; cbn [goes_on andb].
  2: { rewrite (then_return _ _ _ _ _ E2). exists a0, a1, a2, [], [].
       rewrite !app_nil_r, <- !app_assoc in *. auto 10. }
  2: { rewrite (then_raise _ _ _ _ _ E2). exists a0, a1, a2, [], [].
       rewrite !app_nil_r, <- !app_assoc in *. auto 10. }
  rewrite (then_normal _ _ _ _ E2).
  destruct (command_stage_spec e (extend w ((a0 ++ a1) ++ a2))) as (a3 & E3 & F3).
  rewrite extend_extend in E3.
  destruct (command_outcome e) as [[|[]]|x3] eqn:O3; cbn [goes_on andb].
  2: { rewrite (then_return _ _ _ _ _ E3). exists a0, a1, a2, a3, [].
       rewrite !app_nil_r, <- !app_assoc in *. auto 10. }
  2: { rewrite (then_raise _ _ _ _ _ E3). exists a0, a1, a2, a3, [].
       rewrite !app_nil_r, <- !app_assoc in *. auto 10. }
  rewrite (then_normal _ _ _ _ E3).
  destruct (visual_stage_spec e (extend w (((a0 ++ a1) ++ a2) ++ a3))) as (a4 & E4 & F4).
  rewrite extend_extend in E4. rewrite E4.
  exists a0, a1, a2, a3, a4. rewrite <- !app_assoc.
  split; [now destruct (visual_outcome e) as [[|[]]|x4]|].
  split; [exact F0|]. split; [exact F1|]. split; [exact F2|]. split; [exact F3|exact F4].
Qed.

(** ** The loop body *)

Lemma stage_ok_only (m : mechanism) (r : result (completion unit)) (added : list event) :
  stage_ok m r added = true -> all_are (rank m) (mechanisms added) = true.
Proof.
  unfold stage_ok. intros H. apply andb_true_iff in H as [H _].
  now apply andb_true_iff in H.
Qed.

Lemma stage_ok_print (m : mechanism) (r : result (completion unit)) (added : list event) :
  stage_ok m r added = true -> print_failed added = is_raise r.
Proof.
  unfold stage_ok. intros H. apply andb_true_iff in H as [H _].
  apply andb_true_iff in H as [_ H]. now apply Bool.eqb_prop.
Qed.

Lemma stage_ok_normal (m : mechanism) (added : list event) :
  stage_ok m (Ok Normal) added = true -> raised_in (stage_calls m) added = true.
Proof. unfold stage_ok. intros H. now apply andb_true_iff in H. Qed.

Lemma stage_sleeps_spec (lo hi fail : nat) (on : bool) (r : result (completion unit))
  (added : list event) :
  stage_sleeps lo hi fail on r added = true ->
  short_sleeps added = true /\
  match r with
  | Ok (Return _) => sleep_total added <= hi /\ (on = true -> lo <= sleep_total added)
  | _ => sleep_total added <= fail
  end.
Proof.
  unfold stage_sleeps. intros H. apply andb_true_iff in H as [Hs H].
  split; [exact Hs|]. destruct r as [[|u]|x]; try (now apply Nat.leb_le).
  apply andb_true_iff in H as [H1 H2]. apply Nat.leb_le in H1. split; [exact H1|].
  intros ->. cbn in H2. now apply Nat.leb_le.
Qed.

Lemma segments_ok (a0 a1 a2 a3 a4 : list event) :
  all_are (rank AudioFile) (mechanisms a0) = true ->
  all_are (rank ToneBeep) (mechanisms a1) = true ->
  all_are (rank TerminalBell) (mechanisms a2) = true ->
  all_are (rank ShellCommand) (mechanisms a3) = true ->
  all_are (rank VisualAlert) (mechanisms a4) = true ->
  bell_writes a2 <= 3 ->
  (mechanisms a2 ++ mechanisms a3 ++ mechanisms a4 <> [] ->
   raised_in (stage_calls ToneBeep) a1 = true) ->
  (mechanisms a3 ++ mechanisms a4 <> [] ->
   raised_in (stage_calls TerminalBell) a2 = true) ->
  (mechanisms a4 <> [] -> raised_in (stage_calls ShellCommand) a3 = true) ->
  iteration_ok (a0 ++ a1 ++ a2 ++ a3 ++ a4).
Proof.
  intros H0 H1 H2 H3 H4 Hbell R1 R2 R3. repeat split.
  - rewrite !mechanisms_app. cbn [rank] in *.
    apply (ascending_app 0); [now apply all_are_ascending with 0| | |].
    2: { apply (all_are_le 0); [assumption|lia]. }
    2: { rewrite !Forall_app. repeat split; eapply all_are_ge; eauto; lia. }
    apply (ascending_app 1); [now apply all_are_ascending with 1| | |].
    2: { apply (all_are_le 1); [assumption|lia]. }
    2: { rewrite !Forall_app. repeat split; eapply all_are_ge; eauto; lia. }
    apply (ascending_app 2); [now apply all_are_ascending with 2| | |].
    2: { apply (all_are_le 2); [assumption|lia]. }
    2: { rewrite !Forall_app. repeat split; eapply all_are_ge; eauto; lia. }
    apply (ascending_app 3);
      [now apply all_are_ascending with 3|now apply all_are_ascending with 4| |].
    + apply (all_are_le 3); [assumption|lia].
    + apply (all_are_ge 4); [assumption|lia].
  - rewrite !bell_writes_app.
    rewrite (bell_writes_other _ _ H0), (bell_writes_other _ _ H1),
      (bell_writes_other _ _ H3), (bell_writes_other _ _ H4) by discriminate. lia.
  - intros m m' Hin Hlo Hhi. unfold used in Hin. rewrite !mechanisms_app in Hin.
    rewrite !raised_in_app. rewrite !in_app_iff in Hin.
    destruct Hin as [Hin|[Hin|[Hin|[Hin|Hin]]]].
    + rewrite (all_are_in _ _ _ H0 Hin) in Hhi. cbn in Hhi. lia.
    + rewrite (all_are_in _ _ _ H1 Hin) in Hhi. cbn in Hhi. lia.
    + rewrite (all_are_in _ _ _ H2 Hin) in Hhi.
      destruct m'; cbn in Hlo, Hhi; try lia.
      rewrite R1; [now rewrite !orb_true_r|].
      apply in_nonempty with (rank m). rewrite !in_app_iff. auto.
    + rewrite (all_are_in _ _ _ H3 Hin) in Hhi.
      destruct m'; cbn in Hlo, Hhi; try lia.
      * rewrite R1; [now rewrite !orb_true_r|].
        apply in_nonempty with (rank m). rewrite !in_app_iff. auto.
      * rewrite R2; [now rewrite !orb_true_r|].
        apply in_nonempty with (rank m). rewrite !in_app_iff. auto.
    + rewrite (all_are_in _ _ _ H4 Hin) in Hhi.
      destruct m'; cbn in Hlo, Hhi; try lia.
      * rewrite R1; [now rewrite !orb_true_r|].
        apply in_nonempty with (rank m). rewrite !in_app_iff. auto.
      * rewrite R2; [now rewrite !orb_true_r|].
        apply in_nonempty with (rank m). rewrite !in_app_iff. auto.
      * rewrite R3; [now rewrite !orb_true_r|].
        apply in_nonempty with (rank m). auto.
Qed.

(** A mechanism is used in a turn exactly when its own stage uses it. *)
Lemma used_in_segments (a0 a1 a2 a3 a4 : list event) (m : mechanism) :
  all_are (rank AudioFile) (mechanisms a0) = true ->
  all_are (rank ToneBeep) (mechanisms a1) = true ->
  all_are (rank TerminalBell) (mechanisms a2) = true ->
  all_are (rank ShellCommand) (mechanisms a3) = true ->
  all_are (rank VisualAlert) (mechanisms a4) = true ->
  used m (a0 ++ a1 ++ a2 ++ a3 ++ a4) <->
  uses match m with
       | AudioFile => a0
       | ToneBeep => a1
       | TerminalBell => a2
       | ShellCommand => a3
       | VisualAlert => a4
       end = true.
Proof.
  intros H0 H1 H2 H3 H4.
  pose proof (uses_used _ _ H0 m) as U0. pose proof (uses_used _ _ H1 m) as U1.
  pose proof (uses_used _ _ H2 m) as U2. pose proof (uses_used _ _ H3 m) as U3.
  pose proof (uses_used _ _ H4 m) as U4.
  unfold used in *. rewrite !mechanisms_app, !in_app_iff.
  rewrite U0, U1, U2, U3, U4.
  destruct m; split; intros H;
    repeat match goal with
           | H : _ \/ _ |- _ => destruct H
           | H : _ /\ _ |- _ => destruct H
           end;
    try discriminate; try assumption; auto 10.
Qed.

Lemma part_cases (e : env) (w : world) (m : mechanism) (facts : list event -> Prop)
  (added : list event) :
  part e w m facts added ->
  (reached e w m = true /\ facts added) \/ (reached e w m = false /\ added = []).
Proof. unfold part. destruct (reached e w m); auto. Qed.

(** How a turn ends when its stages end as [r0], ..., [r4]. *)
Lemma is_raise_first (r0 r1 r2 r3 r4 : result (completion unit)) :
  is_raise (first_to_end [r0; r1; r2; r3; r4])
  = is_raise r0
    || goes_on r0 && (is_raise r1
    || goes_on r1 && (is_raise r2
    || goes_on r2 && (is_raise r3
    || goes_on r3 && is_raise r4))).
Proof.
  destruct r0 as [[|u0]|x0]; [|reflexivity|reflexivity].
  destruct r1 as [[|u1]|x1]; [|reflexivity|reflexivity].
  destruct r2 as [[|u2]|x2]; [|reflexivity|reflexivity].
  destruct r3 as [[|u3]|x3]; [|reflexivity|reflexivity].
  destruct r4 as [[|u4]|x4]; reflexivity.
Qed.

(** What the events of a fallback stage show, reached or not. *)
Lemma fallback_part (e : env) (w : world) (m : mechanism) (r : result (completion unit))
  (lo hi fail : nat) (on : bool) (added : list event) :
  part e w m (fun a => stage_ok m r a = true /\ uses a = sounds e w m /\
                       stage_sleeps lo hi fail on r a = true) added ->
  all_are (rank m) (mechanisms added) = true /\
  uses added = reached e w m && sounds e w m /\
  print_failed added = reached e w m && is_raise r /\
  short_sleeps added = true /\
  (added <> [] -> reached e w m = true) /\
  (reached e w m = true -> goes_on r = true -> raised_in (stage_calls m) added = true) /\
  (reached e w m = false -> sleep_total added = 0) /\
  match r with
  | Ok (Return _) => sleep_total added <= hi /\
                     (reached e w m = true -> on = true -> lo <= sleep_total added)
  | _ => sleep_total added <= fail
  end.
Proof.
  intros H. destruct (part_cases _ _ _ _ _ H) as [[Hr (Hok & Hu & Hs)]|[Hr ->]]; rewrite Hr.
  - destruct (stage_sleeps_spec _ _ _ _ _ _ Hs) as [Hshort Hbound].
    split; [exact (stage_ok_only _ _ _ Hok)|]. split; [exact Hu|].
    split; [exact (stage_ok_print _ _ _ Hok)|]. split; [exact Hshort|].
    split; [reflexivity|]. split.
    + intros _ Hgo. destruct r as [[|u]|x]; try discriminate.
      now apply stage_ok_normal.
    + split; [discriminate|]. destruct r as [[|u]|x]; auto. destruct Hbound. auto.
  - cbn. repeat split; auto; try discriminate; try (now intros []).
    destruct r as [[|u]|x]; cbn; repeat split; try lia; discriminate.
Qed.

Lemma reached_next (e : env) (w : world) :
  reached e w AudioFile = true /\
  reached e w ToneBeep = goes_on (file_outcome e w) /\
  reached e w TerminalBell = reached e w ToneBeep && goes_on (beep_outcome e) /\
  reached e w ShellCommand = reached e w TerminalBell && goes_on (bell_outcome e) /\
  reached e w VisualAlert = reached e w ShellCommand && goes_on (command_outcome e).
Proof.
  unfold reached, stages. cbn [rank firstn forallb].
  destruct (goes_on (file_outcome e w)), (goes_on (beep_outcome e)),
    (goes_on (bell_outcome e)), (goes_on (command_outcome e)); repeat split; reflexivity.
Qed.

Lemma mechanisms_nonempty (added : list event) : mechanisms added <> [] -> added <> [].
Proof. intros H ->. now apply H. Qed.

(** The writes of the bell are three at most. *)
Lemma rings_le (e : env) (i n : nat) : rings e i n <= n.
Proof.
  revert i. induction n as [|n IH]; intros i; cbn; [lia|].
  destruct (alarm_on e (AtBellRing i)); [|lia].
  destruct (stdout_write e i); [lia|]. destruct (stdout_flush e i); [lia|].
  specialize (IH (S i)). lia.
Qed.

(** The bounds of the stages that a turn has gone through, added up. *)
Ltac sleeps_leaf :=
  repeat match goal with
         | H : true = true -> _ |- _ => specialize (H eq_refl)
         | H : false = false -> _ |- _ => specialize (H eq_refl)
         | H : _ /\ _ |- _ => destruct H
         end;
  repeat split; intros;
  repeat match goal with
         | H : alarm_stays_on ?e, F : alarm_stays_on ?e -> _ |- _ =>
             specialize (F H); decompose [and] F; clear F
         | H : forall j, alarm_on _ (AtPoll j) = false,
           F : (forall j, alarm_on _ (AtPoll j) = false) -> _ |- _ => specialize (F H)
         | H : ?a = true, F : ?a = true -> _ |- _ => specialize (F H)
         end;
  try discriminate; try lia.

(** One turn of the loop, as a whole. *)
Lemma alarm_iteration_spec (e : env) (w : world) :
  exists added,
    alarm_iteration e w = (turn_outcome e w, extend w added) /\
    iteration_ok added /\
    (forall m, used m added <-> reached e w m = true /\ sounds e w m = true) /\
    print_failed added = is_raise (turn_outcome e w) /\
    bell_writes added
    = (if reached e w TerminalBell && is_none (import_module e "sys") && alarm_on e AtBell
       then rings e 0 3 else 0) /\
    short_sleeps added = true /\
    sleep_total added <= 100 * length (pygame_mixer_get_busy e) + 1500 /\
    ((forall j, alarm_on e (AtPoll j) = false) -> sleep_total added <= 1500) /\
    (alarm_stays_on e -> is_raise (turn_outcome e w) = false -> 300 <= sleep_total added).
Proof.
  destruct (alarm_iteration_stages e w)
    as (a0 & a1 & a2 & a3 & a4 & E & F0 & F1 & F2 & F3 & F4).
  exists (a0 ++ a1 ++ a2 ++ a3 ++ a4). split; [exact E|]. clear E.
  destruct F0 as (W0 & P0 & U0 & N0 & S0 & T0 & Off0).
  assert (B2 : bell_writes a2
               = if reached e w TerminalBell && is_none (import_module e "sys")
                    && alarm_on e AtBell
                 then rings e 0 3 else 0).
  { destruct (part_cases _ _ _ _ _ F2) as [[Hr (_ & _ & _ & Hb)]|[Hr ->]]; rewrite Hr.
    - exact Hb.
    - reflexivity. }
  assert (G1 := fallback_part e w ToneBeep (beep_outcome e) 300 300 0 (alarm_on e AtBeep) a1
                  F1).
  assert (G2 : part e w TerminalBell
                 (fun a => stage_ok TerminalBell (bell_outcome e) a = true /\
                           uses a = sounds e w TerminalBell /\
                           stage_sleeps 500 800 200 (alarm_on e AtBell) (bell_outcome e) a
                           = true) a2).
  { unfold part in *. destruct (reached e w TerminalBell); [|exact F2].
    destruct F2 as (H1 & H2 & H3 & _). auto. }
  apply fallback_part in G2.
  assert (G3 := fallback_part e w ShellCommand (command_outcome e) 1000 1000 0
                  (alarm_on e AtCommand) a3 F3).
  clear F1 F2 F3.
  destruct G1 as (W1 & U1 & P1 & S1 & N1 & R1 & Z1 & T1).
  destruct G2 as (W2 & U2 & P2 & S2 & N2 & R2 & Z2 & T2).
  destruct G3 as (W3 & U3 & P3 & S3 & N3 & R3 & Z3 & T3).
  assert (G4 : all_are (rank VisualAlert) (mechanisms a4) = true /\
               uses a4 = reached e w VisualAlert && sounds e w VisualAlert /\
               print_failed a4 = reached e w VisualAlert && is_raise (visual_outcome e) /\
               short_sleeps a4 = true /\
               (a4 <> [] -> reached e w VisualAlert = true) /\
               (reached e w VisualAlert = false -> sleep_total a4 = 0) /\
               sleep_total a4 <= 1000 /\
               (reached e w VisualAlert = true -> goes_on (visual_outcome e) = true ->
                alarm_on e AtVisual = true -> sleep_total a4 = 1000)).
  { destruct (part_cases _ _ _ _ _ F4) as [[Hr (H1 & H2 & H3 & H4 & H5 & H6)]|[Hr ->]];
      rewrite Hr.
    - repeat split; auto; try discriminate.
      intros _ Hgo Hon. rewrite (H6 Hgo), Hon. reflexivity.
    - cbn. repeat split; auto; try discriminate; try lia; try (now intros []). }
  clear F4. destruct G4 as (W4 & U4 & P4 & S4 & N4 & Z4 & T4 & L4).
  destruct (reached_next e w) as (Q0 & Q1 & Q2 & Q3 & Q4).
  split; [|split; [|split; [|split; [|split]]]].
  - (* the order of the mechanisms *)
    apply segments_ok; auto.
    + rewrite B2. destruct (_ && _); [apply rings_le|lia].
    + intros Hne. apply R1.
      * assert (Hr : reached e w TerminalBell = true \/ reached e w ShellCommand = true
                     \/ reached e w VisualAlert = true).
        { destruct (mechanisms a2) eqn:M2.
          - destruct (mechanisms a3) eqn:M3.
            + right. right. apply N4. apply mechanisms_nonempty. exact Hne.
            + right. left. apply N3. apply mechanisms_nonempty. rewrite M3. discriminate.
          - left. apply N2. apply mechanisms_nonempty. rewrite M2. discriminate. }
        rewrite Q4, Q3, Q2 in Hr. destruct (reached e w ToneBeep); [reflexivity|].
        cbn in Hr. destruct Hr as [Hr|[Hr|Hr]]; discriminate.
      * assert (Hr : reached e w TerminalBell = true \/ reached e w ShellCommand = true
                     \/ reached e w VisualAlert = true).
        { destruct (mechanisms a2) eqn:M2.
          - destruct (mechanisms a3) eqn:M3.
            + right. right. apply N4. apply mechanisms_nonempty. exact Hne.
            + right. left. apply N3. apply mechanisms_nonempty. rewrite M3. discriminate.
          - left. apply N2. apply mechanisms_nonempty. rewrite M2. discriminate. }
        rewrite Q4, Q3, Q2 in Hr. destruct (goes_on (beep_outcome e)); [reflexivity|].
        rewrite !andb_false_r in Hr. cbn in Hr. destruct Hr as [Hr|[Hr|Hr]]; discriminate.
    + intros Hne.
      assert (Hr : reached e w ShellCommand = true \/ reached e w VisualAlert = true).
      { destruct (mechanisms a3) eqn:M3.
        - right. apply N4. apply mechanisms_nonempty. exact Hne.
        - left. apply N3. apply mechanisms_nonempty. rewrite M3. discriminate. }
      rewrite Q4, Q3 in Hr. apply R2.
      * destruct (reached e w TerminalBell); [reflexivity|].
        cbn in Hr. destruct Hr as [Hr|Hr]; discriminate.
      * destruct (goes_on (bell_outcome e)); [reflexivity|].
        rewrite !andb_false_r in Hr. cbn in Hr. destruct Hr as [Hr|Hr]; discriminate.
    + intros Hne. apply mechanisms_nonempty in Hne. apply N4 in Hne. rewrite Q4 in Hne.
      apply andb_true_iff in Hne as [Hne1 Hne2]. now apply R3.
  - (* which mechanisms are used *)
    intros m. rewrite (used_in_segments a0 a1 a2 a3 a4 m W0 W1 W2 W3 W4).
    destruct m; rewrite ?U0, ?U1, ?U2, ?U3, ?U4, ?Q0, ?andb_true_iff; tauto.
  - (* what is raised *)
    unfold turn_outcome, stages. rewrite is_raise_first.
    rewrite !print_failed_app, P0, P1, P2, P3, P4, Q4, Q3, Q2, Q1.
    clear.
    destruct (is_raise (file_outcome e w)), (goes_on (file_outcome e w)),
      (is_raise (beep_outcome e)), (goes_on (beep_outcome e)),
      (is_raise (bell_outcome e)), (goes_on (bell_outcome e)),
      (is_raise (command_outcome e)), (goes_on (command_outcome e)),
      (is_raise (visual_outcome e)); reflexivity.
  - (* the bell *)
    rewrite !bell_writes_app.
    rewrite (bell_writes_other _ _ W0), (bell_writes_other _ _ W1),
      (bell_writes_other _ _ W3), (bell_writes_other _ _ W4) by discriminate.
    rewrite B2. lia.
  - now rewrite !short_sleeps_app, S0, S1, S2, S3, S4.
  - (* the sleeps *)
    rewrite !sleep_total_app. unfold turn_outcome, stages.
    clear W0 W1 W2 W3 W4 U0 U1 U2 U3 U4 P0 P1 P2 P3 P4 S0 S1 S2 S3 S4 N0 N1 N2 N3 N4
      R1 R2 R3 B2 Q0.
    rewrite Q4, Q3, Q2, Q1 in *. clear Q1 Q2 Q3 Q4.
    assert (Hflag : alarm_stays_on e ->
                    alarm_on e AtBeep = true /\ alarm_on e AtBell = true /\
                    alarm_on e AtCommand = true /\ alarm_on e AtVisual = true)
      by (intros Hon; repeat split; apply Hon).
    destruct (file_outcome e w) as [[|[]]|x0]; cbn [goes_on andb is_raise first_to_end] in *.
    2, 3: sleeps_leaf.
    destruct (beep_outcome e) as [[|[]]|x1]; cbn [goes_on andb is_raise first_to_end] in *.
    2, 3: sleeps_leaf.
    destruct (bell_outcome e) as [[|[]]|x2]; cbn [goes_on andb is_raise first_to_end] in *.
    2, 3: sleeps_leaf.
    destruct (command_outcome e) as [[|[]]|x3];
      cbn [goes_on andb is_raise first_to_end] in *.
    2, 3: sleeps_leaf.
    assert (Hv : visual_outcome e <> Ok (Return tt)).
    { unfold visual_outcome, after_print.
      destruct (alarm_on e AtVisual); [|discriminate].
      destruct (print_raises e "DROWSINESS ALERT!"); discriminate. }
    destruct (visual_outcome e) as [[|[]]|x4];
      cbn [goes_on andb is_raise first_to_end] in *.
    2: now contradiction Hv.
    all: sleeps_leaf.
Qed.

(** ** The loop *)

(** What leaves a turn of the loop is what a [print] has raised. *)
Lemma turn_raises (e : env) (w : world) (x : exn) :
  turn_outcome e w = Raise x -> x = OtherException.
Proof.
  unfold turn_outcome, stages. cbn [first_to_end].
  assert (H0 : forall y, file_outcome e w = Raise y -> y = OtherException).
  { unfold file_outcome. destruct (truthy (AUDIO_LIBRARY w)); [|discriminate].
    destruct (play_audio_file_spec e w) as (r & a & Heq & Hr & _).
    rewrite Heq. cbn [fst]. rewrite Hr. unfold play_result.
    destruct (known_library (AUDIO_LIBRARY w) && negb (raised a)); [discriminate|].
    destruct (raised a && print_raises e "[ERROR] Failed to play audio: {e}");
      [|discriminate].
    intros y H. now injection H as <-. }
  assert (Hp : forall line y,
             @after_print unit e line = Raise y -> y = OtherException).
  { intros line y. unfold after_print. destruct (print_raises e line); [|discriminate].
    intros H. now injection H as <-. }
  assert (H1 : forall y, beep_outcome e = Raise y -> y = OtherException).
  { unfold beep_outcome. destruct (first_raised _) as [[]|]; try discriminate; apply Hp. }
  assert (H2 : forall y, bell_outcome e = Raise y -> y = OtherException).
  { unfold bell_outcome. destruct (first_raised _) as [[]|]; try discriminate; apply Hp. }
  assert (H3 : forall y, command_outcome e = Raise y -> y = OtherException).
  { unfold command_outcome.
    destruct (first_raised _) as [[]|]; try discriminate; apply Hp. }
  assert (H4 : forall y, visual_outcome e = Raise y -> y = OtherException).
  { unfold visual_outcome. destruct (alarm_on e AtVisual); [apply Hp|discriminate]. }
  destruct (file_outcome e w) as [[|[]]|x0]; [|discriminate|apply H0].
  destruct (beep_outcome e) as [[|[]]|x1]; [|discriminate|apply H1].
  destruct (bell_outcome e) as [[|[]]|x2]; [|discriminate|apply H2].
  destruct (command_outcome e) as [[|[]]|x3]; [|discriminate|apply H3].
  destruct (visual_outcome e) as [[|[]]|x4]; [discriminate|discriminate|apply H4].
Qed.

(** Nothing is raised in a turn unless a [print] raises. *)
Lemma quiet_turn (e : env) (w : world) :
  quiet e -> is_raise (turn_outcome e w) = false.
Proof.
  intros Hq. unfold turn_outcome, stages. rewrite is_raise_first.
  assert (Hp : forall line, @after_print unit e line = Ok Normal).
  { intros line. unfold after_print. now rewrite Hq. }
  assert (H0 : is_raise (file_outcome e w) = false).
  { unfold file_outcome. destruct (truthy (AUDIO_LIBRARY w)); [|reflexivity].
    destruct (play_audio_file_spec e w) as (r & a & Heq & Hr & _).
    rewrite Heq. cbn [fst]. rewrite Hr. unfold play_result. rewrite Hq, andb_false_r.
    now destruct (known_library (AUDIO_LIBRARY w) && negb (raised a)). }
  assert (H1 : is_raise (beep_outcome e) = false).
  { unfold beep_outcome. rewrite Hp. now destruct (first_raised _) as [[]|]. }
  assert (H2 : is_raise (bell_outcome e) = false).
  { unfold bell_outcome. rewrite Hp. now destruct (first_raised _) as [[]|]. }
  assert (H3 : is_raise (command_outcome e) = false).
  { unfold command_outcome. rewrite Hp. now destruct (first_raised _) as [[]|]. }
  assert (H4 : is_raise (visual_outcome e) = false).
  { unfold visual_outcome. rewrite Hp. now destruct (alarm_on e AtVisual). }
  rewrite H0, H1, H2, H3, H4. now rewrite !andb_false_r.
Qed.

(** The loop, however many turns it takes: what leaves it is what a
    [print] has raised, and it does not touch the file when
    [AUDIO_LIBRARY] is not set. *)
Lemma trigger_continuous_alarm_spec (iterations : list env) (w : world) :
  exists r added,
    trigger_continuous_alarm iterations w = (r, extend w added) /\
    print_failed added = is_raise r /\
    (forall x, r = Raise x -> x = OtherException) /\
    (truthy (AUDIO_LIBRARY w) = false -> ~ used AudioFile added) /\
    (Forall quiet iterations -> is_raise r = false).
Proof.
  revert w. induction iterations as [|e rest IH]; intros w.
  - exists (Ok StillRunning), []. split; [apply unchanged|].
    repeat split; auto; discriminate.
  - cbn [trigger_continuous_alarm]. destruct (alarm_on e AtLoop).
    + destruct (alarm_iteration_spec e w) as (a & E & _ & Hused & Hp & _).
      unfold bind. rewrite E.
      assert (Hfile : truthy (AUDIO_LIBRARY w) = false -> ~ used AudioFile a).
      { intros Ht Hu. apply Hused in Hu as [_ Hu]. cbn [sounds] in Hu.
        rewrite Ht in Hu. discriminate. }
      pose proof (turn_raises e w) as Hx. pose proof (quiet_turn e w) as Hq.
      destruct (turn_outcome e w) as [c|x].
      * destruct (IH (extend w a)) as (r & a' & E' & Hp' & Hx' & F' & Hq').
        rewrite E', extend_extend. exists r, (a ++ a'). split; [reflexivity|].
        rewrite print_failed_app, Hp, Hp'. split; [reflexivity|]. split; [exact Hx'|].
        split.
        -- intros Ht. unfold used. rewrite mechanisms_app, in_app_iff. intros [H|H].
           ++ now apply (Hfile Ht).
           ++ now apply (F' Ht).
        -- intros Hall. inversion Hall; subst. now apply Hq'.
      * exists (Raise x), a. split; [reflexivity|]. split; [exact Hp|].
        split; [intros y Hy; injection Hy as <-; now apply Hx|]. split; [exact Hfile|].
        intros Hall. inversion Hall; subst. now apply Hq.
    + exists (Ok Exited), []. split; [apply unchanged|].
      repeat split; auto; discriminate.
Qed.

(** ** The selection of the library *)

Ltac unfold_block :=
  unfold block_world, block_outcome, block_raises, passes, pygame_loads,
    playsound_imports, pydub_loads, winsound_fits, handled, block_handler, announcement,
    after_print, raised_by, is_none, completion_of.

Ltac finish_block :=
  eexists; split;
  [ cbn [AUDIO_LIBRARY trace]; rewrite <- ?app_assoc; reflexivity | ].

Lemma check_file_spec (e : env) (w : world) :
  exists added,
    check_file e w
    = (if path_exists e then Ok Normal
       else match gives_up e "[WARNING] Audio file not found: {ALARM_FILE}" with
            | Ok r => Ok (Return r)
            | Raise x => Raise x
            end,
       extend w added) /\
    (backends added = [] /\ raised added = false).
Proof.
  unfold check_file, gives_up. unfold_monad. cbn. repeat split_head.
  all: finish_run; split; reflexivity.
Qed.

Lemma no_library_spec (e : env) (w : world) :
  exists added,
    no_library e w
    = (match gives_up e "[WARNING] No compatible audio library found" with
       | Ok r => Ok (Return r)
       | Raise x => Raise x
       end,
       extend w added) /\
    backends added = [].
Proof.
  unfold no_library, gives_up. unfold_monad. cbn. repeat split_head.
  all: finish_run; reflexivity.
Qed.

Lemma try_pygame_spec (e : env) (w : world) :
  exists added,
    try_pygame e w = (fst (block_outcome e Pygame), block_world e Pygame w added) /\
    block_ok Pygame (completion_of (fst (block_outcome e Pygame))) added = true.
Proof.
  unfold try_pygame. unfold_block. unfold_monad. cbn. repeat split_head.
  all: finish_block; reflexivity.
Qed.

Lemma try_playsound_spec (e : env) (w : world) :
  exists added,
    try_playsound e w
    = (fst (block_outcome e Playsound), block_world e Playsound w added) /\
    block_ok Playsound (completion_of (fst (block_outcome e Playsound))) added = true.
Proof.
  unfold try_playsound. unfold_block. unfold_monad. cbn. repeat split_head.
  all: finish_block; reflexivity.
Qed.

Lemma try_pydub_spec (e : env) (w : world) :
  exists added,
    try_pydub e w = (fst (block_outcome e Pydub), block_world e Pydub w added) /\
    block_ok Pydub (completion_of (fst (block_outcome e Pydub))) added = true.
Proof.
  unfold try_pydub. unfold_block. unfold_monad. cbn. repeat split_head.
  all: finish_block; reflexivity.
Qed.

Lemma try_winsound_spec (e : env) (w : world) :
  exists added,
    try_winsound e w = (fst (block_outcome e Winsound), block_world e Winsound w added) /\
    (block_ok Winsound (completion_of (fst (block_outcome e Winsound))) added = true /\
     (completion_of (fst (block_outcome e Winsound)) <> Normal ->
      added = winsound_selected /\
      platform_system e = Ok "Windows"%string /\
      endswith (lower (ALARM_FILE e)) ".wav" = true)).
Proof.
  unfold try_winsound. unfold_block. unfold_monad. cbn. repeat split_head.
  all: finish_block; split; [reflexivity|]; try (intros H; now contradiction H).
  intros _. apply String.eqb_eq in Heqb. subst. auto.
Qed.

(** Blocks run one after the other, each calling its own library, from the
    library of rank [start] on. *)
Lemma blocks_in_order (segs : list (list event)) (start : nat) :
  (forall i seg, nth_error segs i = Some seg ->
                 all_are (start + i) (backends seg) = true /\ backends seg <> []) ->
  ascending (backends (concat segs)) = true /\
  (forall k, In k (backends (concat segs)) <-> start <= k < start + length segs).
Proof.
  revert start. induction segs as [|seg segs IH]; intros start H.
  - cbn. split; [reflexivity|]. intros k. split; [contradiction|lia].
  - destruct (H 0 seg eq_refl) as [Hall Hne]. rewrite Nat.add_0_r in Hall.
    destruct (IH (S start)) as [Hasc Hin].
    { intros i s Hs. specialize (H (S i) s Hs). now rewrite Nat.add_succ_r in H. }
    cbn [concat]. rewrite backends_app. split.
    + apply (ascending_app start); [now apply all_are_ascending with start| assumption | |].
      * apply (all_are_le start); [assumption|lia].
      * apply Forall_forall. intros k Hk. apply Hin in Hk. lia.
    + intros k. rewrite in_app_iff, Hin. cbn [length]. split.
      * intros [Hk|Hk]; [|lia]. rewrite (all_are_in _ _ _ Hall Hk). lia.
      * intros Hk. destruct (Nat.eq_dec k start) as [->|Hne']; [|right; lia].
        left. destruct (backends seg) as [|n ns]; [contradiction|].
        cbn in Hall. apply andb_true_iff in Hall as [Hn _]. apply Nat.eqb_eq in Hn.
        subst. now left.
Qed.

Lemma block_ok_tried (b : backend) (c : completion (option string)) (added : list event) :
  block_ok b c added = true ->
  all_are (backend_rank b) (backends added) = true /\ backends added <> [].
Proof.
  unfold block_ok. intros H. apply andb_true_iff in H as [H _].
  apply andb_true_iff in H as [H1 H2]. split; [exact H1|].
  destruct (backends added); [discriminate|discriminate].
Qed.

Lemma block_ok_selected (b : backend) (name : string) (added : list event) :
  block_ok b (Return (Some name)) added = true ->
  name = backend_name b /\
  match b with
  | Pygame => succeeded "pygame.mixer.Sound" added = true
  | Pydub => succeeded "AudioSegment.from_file" added = true
  | _ => True
  end.
Proof.
  unfold block_ok. intros H. apply andb_true_iff in H as [_ H].
  apply andb_true_iff in H as [H H3]. apply andb_true_iff in H as [H1 _].
  apply String.eqb_eq in H1. split; [exact H1|]. destruct b; auto.
Qed.

Lemma block_ok_none (b : backend) (added : list event) :
  block_ok b (Return None) added = true -> False.
Proof.
  unfold block_ok. rewrite andb_false_r. discriminate.
Qed.

Lemma path_tried (af an : list event) (segs : list (list event)) :
  backends af = [] -> backends an = [] ->
  (forall i seg, nth_error segs i = Some seg ->
                 all_are i (backends seg) = true /\ backends seg <> []) ->
  ascending (backends (af ++ concat segs ++ an)) = true /\
  (forall b, tried b (af ++ concat segs ++ an) <-> backend_rank b < length segs).
Proof.
  intros Hf Hn H. unfold tried. rewrite !backends_app, Hf, Hn, app_nil_r. cbn [app].
  destruct (blocks_in_order segs 0 H) as [Hasc Hin]. split; [exact Hasc|].
  intros b. rewrite Hin. lia.
Qed.

(** Each block that ran called its own library. *)
Ltac each_block :=
  let i := fresh "i" in
  let seg := fresh "seg" in
  let Hs := fresh "Hs" in
  intros i seg Hs;
  repeat (destruct i as [|i]; cbn in Hs;
          [injection Hs as <-;
           first [ eapply (block_ok_tried Pygame); eassumption
                 | eapply (block_ok_tried Playsound); eassumption
                 | eapply (block_ok_tried Pydub); eassumption
                 | eapply (block_ok_tried Winsound); eassumption ]|]);
  destruct i; cbn in Hs; discriminate.

Lemma gives_up_none (e : env) (first : string) (r : option string) :
  gives_up e first = Ok r -> r = None.
Proof.
  unfold gives_up. destruct (_ || _); [discriminate|]. intros H. now injection H as <-.
Qed.

(** The events read off a state that has been reached. *)
Ltac same_world :=
  unfold extend; cbn [AUDIO_LIBRARY trace concat app];
  rewrite ?app_nil_r, <- ?app_assoc; reflexivity.

(** [check_audio_library] as a whole: its result and what it leaves in
    [AUDIO_LIBRARY] are [verdict]; when it returns, it has tried the
    libraries in their order, up to the one it returns. *)
Lemma check_audio_library_runs (e : env) (w : world) :
  exists added,
    check_audio_library e w
    = (fst (verdict e (AUDIO_LIBRARY w)),
       {| AUDIO_LIBRARY := snd (verdict e (AUDIO_LIBRARY w));
          trace := trace w ++ added |}) /\
    match fst (verdict e (AUDIO_LIBRARY w)) with
    | Ok r => selection_ok e r added
    | Raise _ => True
    end.
Proof.
  unfold check_audio_library, verdict. unfold bind at 1.
  destruct (check_file_spec e w) as (af & Ef & Hbf & _).
  destruct (path_exists e) eqn:Hp.
  2: { destruct (gives_up e _) as [r|x] eqn:G; cbn [fst snd].
       - rewrite (then_return _ _ _ _ _ Ef). exists af. split; [reflexivity|].
         apply gives_up_none in G. subst r. unfold selection_ok. rewrite Hbf, Hp.
         split; [reflexivity|]. split; [now left|].
         repeat split; try (intros; discriminate); auto.
       - rewrite (then_raise _ _ _ _ _ Ef). exists af. split; [reflexivity|exact I]. }
  rewrite (then_normal _ _ _ _ Ef). cbn [through_blocks].
  (* pygame *)
  destruct (try_pygame_spec e (extend w af)) as (a0 & E0 & B0). unfold block_world in E0.
  destruct (block_outcome e Pygame) as [r0 s0]; cbn [fst snd] in *.
  destruct r0 as [[|[name|]]|x0]; cbn [completion_of] in B0;
    [| |destruct (block_ok_none _ _ B0)|].
  2: { rewrite (then_return _ _ _ _ _ E0).
       destruct (block_ok_selected _ _ _ B0) as [-> Hload].
       exists (af ++ concat [a0] ++ []). split; [unfold ret; f_equal; same_world|].
       destruct (path_tried af [] [a0] Hbf eq_refl) as [Hasc Htried]; [each_block|].
       unfold selection_ok. rewrite Hp. split; [exact Hasc|].
       split; [right; now exists Pygame|].
       split; [intros b Hb b'; rewrite Htried; destruct b; try discriminate; cbn; lia|].
       repeat split; try (intros; discriminate).
       intros _. rewrite !succeeded_app. cbn [concat]. rewrite !succeeded_app, Hload.
       now rewrite !orb_true_r. }
  2: { rewrite (then_raise _ _ _ _ _ E0). exists (af ++ a0).
       split; [f_equal; same_world|exact I]. }
  rewrite (then_normal _ _ _ _ E0). clear E0.
  (* playsound *)
  match goal with |- context [then_ (try_playsound e) _ ?w1] =>
    destruct (try_playsound_spec e w1) as (a1 & E1 & B1) end.
  unfold block_world in E1.
  destruct (block_outcome e Playsound) as [r1 s1]; cbn [fst snd] in *.
  destruct r1 as [[|[name|]]|x1]; cbn [completion_of] in B1;
    [| |destruct (block_ok_none _ _ B1)|].
  2: { rewrite (then_return _ _ _ _ _ E1).
       destruct (block_ok_selected _ _ _ B1) as [-> _].
       exists (af ++ concat [a0; a1] ++ []). split; [unfold ret; f_equal; same_world|].
       destruct (path_tried af [] [a0; a1] Hbf eq_refl) as [Hasc Htried]; [each_block|].
       unfold selection_ok. rewrite Hp. split; [exact Hasc|].
       split; [right; now exists Playsound|].
       split; [intros b Hb b'; rewrite Htried; destruct b; try discriminate; cbn; lia|].
       repeat split; intros; discriminate. }
  2: { rewrite (then_raise _ _ _ _ _ E1). exists (af ++ a0 ++ a1).
       split; [f_equal; same_world|exact I]. }
  rewrite (then_normal _ _ _ _ E1). clear E1.
  (* pydub *)
  match goal with |- context [then_ (try_pydub e) _ ?w1] =>
    destruct (try_pydub_spec e w1) as (a2 & E2 & B2) end.
  unfold block_world in E2.
  destruct (block_outcome e Pydub) as [r2 s2]; cbn [fst snd] in *.
  destruct r2 as [[|[name|]]|x2]; cbn [completion_of] in B2;
    [| |destruct (block_ok_none _ _ B2)|].
  2: { rewrite (then_return _ _ _ _ _ E2).
       destruct (block_ok_selected _ _ _ B2) as [-> Hload].
       exists (af ++ concat [a0; a1; a2] ++ []).
       split; [unfold ret; f_equal; same_world|].
       destruct (path_tried af [] [a0; a1; a2] Hbf eq_refl) as [Hasc Htried]; [each_block|].
       unfold selection_ok. rewrite Hp. split; [exact Hasc|].
       split; [right; now exists Pydub|].
       split; [intros b Hb b'; rewrite Htried; destruct b; try discriminate; cbn; lia|].
       repeat split; try (intros; discriminate).
       intros _. rewrite !succeeded_app. cbn [concat]. rewrite !succeeded_app, Hload.
       now rewrite !orb_true_r. }
  2: { rewrite (then_raise _ _ _ _ _ E2). exists (af ++ a0 ++ a1 ++ a2).
       split; [f_equal; same_world|exact I]. }
  rewrite (then_normal _ _ _ _ E2). clear E2.
  (* winsound *)
  match goal with |- context [then_ (try_winsound e) _ ?w1] =>
    destruct (try_winsound_spec e w1) as (a3 & E3 & B3 & W3) end.
  unfold block_world in E3.
  destruct (block_outcome e Winsound) as [r3 s3]; cbn [fst snd] in *.
  destruct r3 as [[|[name|]]|x3]; cbn [completion_of] in B3, W3;
    [| |destruct (block_ok_none _ _ B3)|].
  2: { rewrite (then_return _ _ _ _ _ E3).
       destruct (block_ok_selected _ _ _ B3) as [-> _].
       destruct W3 as (Ha3 & Hsys & Hwav); [discriminate|].
       exists (af ++ concat [a0; a1; a2; a3] ++ []).
       split; [unfold ret; f_equal; same_world|].
       destruct (path_tried af [] [a0; a1; a2; a3] Hbf eq_refl) as [Hasc Htried];
         [each_block|].
       unfold selection_ok. rewrite Hp. split; [exact Hasc|].
       split; [right; now exists Winsound|].
       split; [intros b Hb b'; rewrite Htried; destruct b, b'; try discriminate; cbn; lia|].
       repeat split; try (intros; discriminate); auto.
       exists (af ++ a0 ++ a1 ++ a2). cbn [concat]. rewrite Ha3.
       now rewrite !app_nil_r, <- !app_assoc. }
  2: { rewrite (then_raise _ _ _ _ _ E3). exists (af ++ a0 ++ a1 ++ a2 ++ a3).
       split; [f_equal; same_world|exact I]. }
  rewrite (then_normal _ _ _ _ E3). clear E3.
  (* no library *)
  match goal with |- context [no_library e ?w1] =>
    destruct (no_library_spec e w1) as (an & En & Hbn) end.
  rewrite En. destruct (gives_up e _) as [r|x] eqn:G; cbn [fst snd].
  2: { exists (af ++ a0 ++ a1 ++ a2 ++ a3 ++ an). split; [f_equal; same_world|exact I]. }
  apply gives_up_none in G. subst r.
  exists (af ++ concat [a0; a1; a2; a3] ++ an). split; [unfold ret; f_equal; same_world|].
  destruct (path_tried af an [a0; a1; a2; a3] Hbf Hbn) as [Hasc Htried]; [each_block|].
  unfold selection_ok. rewrite Hp. split; [exact Hasc|].
  split; [now left|].
  split; [intros; discriminate|].
  repeat split; try (intros; discriminate).
  intros. apply Htried.
  match goal with |- backend_rank ?b < _ => destruct b; cbn; lia end.
Qed.

(** When no [print] raises, a block selects its library exactly when the
    library passes its check. *)
Lemma quiet_block (e : env) (b : backend) :
  quiet e ->
  block_outcome e b
  = if passes e b then (Ok (Return (Some (backend_name b))), true) else (Ok Normal, false).
Proof.
  intros Hq. unfold block_outcome, handled, after_print. rewrite Hq.
  destruct (block_raises e b) as [x|] eqn:Hr.
  - assert (Hp : passes e b = false).
    { destruct b; unfold passes, pygame_loads, playsound_imports, pydub_loads,
        winsound_fits, is_none; unfold block_raises, raised_by in Hr; cbn in Hr.
      - destruct (import_module e "pygame"); [reflexivity|].
        destruct (pygame_mixer_init e); [reflexivity|].
        destruct (pygame_mixer_Sound e); [reflexivity|discriminate].
      - destruct (import_module e "playsound"); [reflexivity|discriminate].
      - destruct (import_module e "pydub"); [reflexivity|].
        destruct (import_module e "pydub.playback"); [reflexivity|].
        destruct (AudioSegment_from_file e); [reflexivity|discriminate].
      - destruct (import_module e "winsound"); [reflexivity|].
        destruct (import_module e "platform"); [reflexivity|].
        destruct (platform_system e); [discriminate|reflexivity]. }
    rewrite Hp. destruct (block_handler b x) as [line|]; [now rewrite Hq|reflexivity].
  - reflexivity.
Qed.

Lemma quiet_verdict (e : env) (g : option string) :
  quiet e ->
  verdict e g
  = (Ok (decision e), match decision e with Some name => Some name | None => g end).
Proof.
  intros Hq. unfold verdict, decision, gives_up. cbn [through_blocks].
  rewrite !(quiet_block e _ Hq). unfold gives_up. rewrite !Hq. cbn [passes orb negb].
  destruct (path_exists e); [|reflexivity]. cbn [negb].
  destruct (pygame_loads e); [reflexivity|]. cbn [fst snd].
  destruct (playsound_imports e); [reflexivity|]. cbn [fst snd].
  destruct (pydub_loads e); [reflexivity|]. cbn [fst snd].
  destruct (winsound_fits e); reflexivity.
Qed.

(** A block that returns has assigned the name it returns. *)
Lemma block_return (e : env) (b : backend) (r : option string) :
  fst (block_outcome e b) = Ok (Return r) ->
  r = Some (backend_name b) /\ snd (block_outcome e b) = true.
Proof.
  unfold block_outcome, handled, after_print.
  destruct (block_raises e b) as [x|].
  - cbn. destruct (block_handler b x) as [line|]; [|discriminate].
    destruct (print_raises e line); discriminate.
  - destruct (passes e b); [|discriminate].
    destruct (print_raises e (announcement b)).
    + cbn. destruct (block_handler b OtherException) as [line|]; [|discriminate].
      destruct (print_raises e line); discriminate.
    + cbn. intros H. injection H as <-. auto.
Qed.

Lemma verdict_name (e : env) (g : option string) (name : string) :
  fst (verdict e g) = Ok (Some name) -> snd (verdict e g) = Some name.
Proof.
  unfold verdict.
  destruct (path_exists e).
  2: { cbn. intros H. apply gives_up_none in H. discriminate. }
  cbn [through_blocks].
  assert (Hstep : forall b g1 (rest : result (option string) * option string),
             (fst rest = Ok (Some name) -> snd rest = Some name) ->
             fst match fst (block_outcome e b) with
                 | Ok Normal => rest
                 | Ok (Return r) =>
                     (Ok r, if snd (block_outcome e b) then Some (backend_name b) else g1)
                 | Raise x =>
                     (Raise x, if snd (block_outcome e b) then Some (backend_name b) else g1)
                 end = Ok (Some name) ->
             snd match fst (block_outcome e b) with
                 | Ok Normal => rest
                 | Ok (Return r) =>
                     (Ok r, if snd (block_outcome e b) then Some (backend_name b) else g1)
                 | Raise x =>
                     (Raise x, if snd (block_outcome e b) then Some (backend_name b) else g1)
                 end = Some name).
  { intros b g1 rest Hrest. pose proof (block_return e b) as Hb.
    destruct (fst (block_outcome e b)) as [[|r]|x]; [exact Hrest| |discriminate].
    destruct (Hb r eq_refl) as [-> ->]. cbn. intros H. now injection H as <-. }
  apply Hstep. apply Hstep. apply Hstep. apply Hstep.
  cbn. intros H. apply gives_up_none in H. discriminate.
Qed.

(** The library that [decision] names is the first that passes its
    check. *)
Lemma decision_first (e : env) : first_to_pass e (decision e).
Proof.
  unfold first_to_pass, decision.
  destruct (path_exists e); cbn [negb].
  2: { split.
       - intros b. split; [discriminate|]. intros [H _]. discriminate.
       - split; auto. }
  change (pygame_loads e) with (passes e Pygame).
  change (playsound_imports e) with (passes e Playsound).
  change (pydub_loads e) with (passes e Pydub).
  change (winsound_fits e) with (passes e Winsound).
  destruct (passes e Pygame) eqn:P0, (passes e Playsound) eqn:P1,
    (passes e Pydub) eqn:P2, (passes e Winsound) eqn:P3.
  all: split;
    [ intros b; split;
      [ intros Hr; split; [reflexivity|];
        destruct b; cbn [backend_name] in Hr; try congruence;
        (split; [assumption|]);
        intros b' Hlt; destruct b'; cbn [backend_rank] in Hlt; try lia; assumption
      | intros (_ & Hb & Hfirst);
        pose proof (Hfirst Pygame) as F0; pose proof (Hfirst Playsound) as F1;
        pose proof (Hfirst Pydub) as F2;
        destruct b; cbn [backend_rank] in F0, F1, F2; try reflexivity; try congruence;
        repeat match goal with
               | F : _ < _ -> _ |- _ => first [specialize (F ltac:(lia)) | clear F]
               end;
        congruence ]
    | split;
      [ intros Hr; try discriminate; right; intros b; destruct b; assumption
      | intros [H|H]; [discriminate|];
        try reflexivity;
        pose proof (H Pygame); pose proof (H Playsound); pose proof (H Pydub);
        pose proof (H Winsound); congruence ] ].
Qed.

(** A trace without the mechanism of the file makes no call on the file. *)
Lemma not_used_file (added : list event) :
  ~ used AudioFile added -> touches_file added = false.
Proof.
  unfold used, mechanisms, touches_file. induction added as [|ev added IH]; [reflexivity|].
  cbn [pick existsb]. intros H. destruct ev as [f o| | |]; cbn [mechanism_of] in H.
  - destruct (named file_calls f).
    + exfalso. apply H. now left.
    + cbn [orb]. apply IH. intros Hin. apply H.
      destruct (String.eqb f "winsound.Beep"); [now right|].
      destruct (named ["sys.stdout.write"; "sys.stdout.flush"]%string f); [now right|].
      destruct (String.prefix "subprocess.run" f); [now right|exact Hin].
  - cbn [orb]. now apply IH.
  - cbn [orb]. apply IH. intros Hin. apply H.
    destruct (String.eqb line "DROWSINESS ALERT!"); [now right|exact Hin].
  - cbn [orb]. apply IH. intros Hin. apply H.
    destruct (String.eqb line "DROWSINESS ALERT!"); [now right|exact Hin].
Qed.

(** [check_audio_library] when no [print] raises. *)
Lemma check_audio_library_spec (e : env) (w : world) :
  quiet e ->
  exists added,
    check_audio_library e w = (Ok (decision e), selected (decision e) w added) /\
    selection_ok e (decision e) added.
Proof.
  intros Hq. destruct (check_audio_library_runs e w) as (added & E & Hok).
  rewrite (quiet_verdict e _ Hq) in E, Hok. cbn [fst snd] in E, Hok.
  exists added. split; [exact E|exact Hok].
Qed.

(** ** The selection, the playback and the loop as a whole *)

(** The backend is not [None] though every call that loads the file raises,
    and the alarm thread then calls [winsound.PlaySound] on the file in its
    loop before it falls back on the tone. *)
Lemma winsound_selected_without_loading :
  path_exists unplayable_on_windows = true /\
  unloadable unplayable_on_windows = true /\
  check_audio_library unplayable_on_windows startup
  = (Ok (Some "winsound"%string), winsound_world) /\
  touches_file (trace winsound_world) = false /\
  alarm_iteration unplayable_on_windows winsound_world
  = (Ok (Return tt),
     extend winsound_world
       [Call "import winsound" None;
        Call "winsound.PlaySound" (Some OtherException);
        Print "[ERROR] Failed to play audio: {e}";
        Call "import winsound" None;
        Call "winsound.Beep" None;
        Sleep 300]%string).
Proof. repeat split; reflexivity. Qed.

(** On a machine where only playsound is installed, playsound is selected
    as soon as it is imported: lines 76-80 make no call on the file. *)
Lemma playsound_selected_on_import :
  unloadable unplayable_with_playsound = true /\
  check_audio_library unplayable_with_playsound startup
  = (Ok (Some "playsound"%string),
     {| AUDIO_LIBRARY := Some "playsound"%string;
        trace := [Call "os.path.exists" None;
                  Call "import pygame" (Some ImportError);
                  Print "[INFO] pygame not found";
                  Call "import playsound" None;
                  Print "[INFO] Using playsound to play: {ALARM_FILE}"]%string |}).
Proof. split; reflexivity. Qed.

(** C6, as the code has it.  Called with [AUDIO_LIBRARY] not yet set, and
    as long as no [print] raises, [check_audio_library] raises nothing and
    returns what it records in [AUDIO_LIBRARY]: the first of pygame,
    playsound, pydub and winsound that passes its check, and [None] when
    the file is missing or none passes.  It tries the libraries in this
    order, up to the one it selects and no further, all four when it
    selects none though the file exists, none when the file is missing.
    pygame and pydub pass their check by loading the file; playsound
    passes it by its import; winsound passes it by its import, that of
    [platform], a platform that is Windows and a file name that ends in
    [.wav].  When the result is [None] the alarm loop makes no call on the
    file, however long it runs and however it ends. *)
Theorem backend_selection_as_coded (e : env) (w : world) :
  AUDIO_LIBRARY w = None ->
  quiet e ->
  exists r added,
    check_audio_library e w
    = (Ok r, {| AUDIO_LIBRARY := r; trace := trace w ++ added |}) /\
    first_to_pass e r /\
    selection_ok e r added /\
    (r = None ->
     forall iterations : list env,
     exists how driven,
       trigger_continuous_alarm iterations
         {| AUDIO_LIBRARY := r; trace := trace w ++ added |}
       = (how, {| AUDIO_LIBRARY := r; trace := (trace w ++ added) ++ driven |}) /\
       ~ used AudioFile driven /\ touches_file driven = false).
Proof.
  intros Hw Hq. destruct (check_audio_library_spec e w Hq) as (added & E & Hok).
  exists (decision e), added.
  assert (Hsel : selected (decision e) w added
                 = {| AUDIO_LIBRARY := decision e; trace := trace w ++ added |}).
  { unfold selected. rewrite Hw. now destruct (decision e). }
  rewrite Hsel in E. split; [exact E|]. split; [apply decision_first|].
  split; [exact Hok|].
  intros Hr iterations. rewrite Hr.
  destruct (trigger_continuous_alarm_spec iterations
              {| AUDIO_LIBRARY := None; trace := trace w ++ added |})
    as (how & driven & Et & _ & _ & Hno & _).
  exists how, driven. split; [exact Et|]. specialize (Hno eq_refl).
  split; [exact Hno|]. now apply not_used_file.
Qed.

Lemma backend_selection_as_coded_witness :
  AUDIO_LIBRARY startup = None /\
  exists r added,
    check_audio_library unplayable_on_windows startup
    = (Ok r, {| AUDIO_LIBRARY := r; trace := trace startup ++ added |}) /\
    first_to_pass unplayable_on_windows r /\
    selection_ok unplayable_on_windows r added /\
    (r = None ->
     forall iterations : list env,
     exists how driven,
       trigger_continuous_alarm iterations
         {| AUDIO_LIBRARY := r; trace := trace startup ++ added |}
       = (how, {| AUDIO_LIBRARY := r; trace := (trace startup ++ added) ++ driven |}) /\
       ~ used AudioFile driven /\ touches_file driven = false).
Proof.
  split.
  - reflexivity.
  - apply (backend_selection_as_coded unplayable_on_windows startup).
    + reflexivity.
    + intros line. reflexivity.
Defined.

(** With a [sys.stdout] that is closed, on a machine where playsound
    cannot play the file: [play_audio_file] raises what the [print] of its
    handler raises, and the loop is left by what the [print] of the
    handler of the bell raises. *)
Lemma print_in_handler_escapes :
  play_audio_file closed_stdout playsound_world
  = (Raise OtherException,
     extend playsound_world
       [Call "import playsound" None;
        Call "playsound.playsound" (Some OtherException);
        PrintRaised "[ERROR] Failed to play audio: {e}"]%string) /\
  trigger_continuous_alarm [closed_stdout] startup
  = (Raise OtherException,
     extend startup
       [Call "import winsound" (Some ImportError);
        Call "import sys" None;
        Call "sys.stdout.write" (Some OtherException);
        PrintRaised "Error with basic beep: {e}"]%string).
Proof. split; reflexivity. Qed.

(** C9, as the code has it.  Whatever the external calls raise, it is
    caught where it is raised.  [play_audio_file] returns [True] when
    [AUDIO_LIBRARY] is a name it knows and no call has raised, and [False]
    after a call has raised and its handler has printed its line.  One
    turn of the loop ends as the first of its stages that does not go on
    to the next: it uses the mechanisms in the order file, tone, bell,
    command, warning, writes the bell as often as the [for] of line 193 comes
    to, three times at most, and uses each mechanism exactly when every
    stage before it has gone on to the next and the stage itself comes to
    its call.  What leaves [play_audio_file], a turn or the loop is what a
    [print] has raised, and nothing else: nothing when no [print]
    raises. *)
Theorem playback_errors_become_fallbacks :
  (forall (e : env) (w : world),
   exists r added,
     play_audio_file e w = (r, extend w added) /\
     r = play_result e (AUDIO_LIBRARY w) added /\
     print_failed added = is_raise r) /\
  (forall (e : env) (w : world),
   exists added,
     alarm_iteration e w = (turn_outcome e w, extend w added) /\
     iteration_ok added /\
     (forall m, used m added <-> reached e w m = true /\ sounds e w m = true) /\
     bell_writes added
     = (if reached e w TerminalBell && is_none (import_module e "sys") && alarm_on e AtBell
        then rings e 0 3 else 0) /\
     print_failed added = is_raise (turn_outcome e w) /\
     (quiet e -> is_raise (turn_outcome e w) = false)) /\
  (forall (iterations : list env) (w : world),
   exists r added,
     trigger_continuous_alarm iterations w = (r, extend w added) /\
     print_failed added = is_raise r /\
     (Forall quiet iterations -> is_raise r = false)).
Proof.
  split; [|split].
  - intros e w.
    destruct (play_audio_file_spec e w) as (r & added & E & Hr & _ & _ & Hp & _).
    exists r, added. auto.
  - intros e w.
    destruct (alarm_iteration_spec e w) as (added & E & Hok & Hused & Hp & Hbell & _).
    exists added. split; [exact E|]. split; [exact Hok|]. split; [exact Hused|].
    split; [exact Hbell|]. split; [exact Hp|apply quiet_turn].
  - intros iterations w.
    destruct (trigger_continuous_alarm_spec iterations w)
      as (r & added & E & Hp & _ & _ & Hq).
    exists r, added. auto.
Qed.

(** Line 169: the loop is left, with nothing done, as soon as the flag is
    read as false at its head. *)
Lemma loop_exits_when_flag_is_false (e : env) (rest : list env) (w : world) :
  alarm_on e AtLoop = false ->
  trigger_continuous_alarm (e :: rest) w = (Ok Exited, w).
Proof. intros H. cbn. now rewrite H. Qed.

(** One turn on a machine without winsound, without a library for the file:
    the bell rings three times. *)
Example bell_after_failed_import :
  alarm_iteration unplayable_with_playsound startup
  = (Ok (Return tt),
     extend startup
       [Call "import winsound" (Some ImportError);
        Call "import sys" None;
        Call "sys.stdout.write" None; Call "sys.stdout.flush" None; Sleep 100;
        Call "sys.stdout.write" None; Call "sys.stdout.flush" None; Sleep 100;
        Call "sys.stdout.write" None; Call "sys.stdout.flush" None; Sleep 100;
        Sleep 500]%string).
Proof. reflexivity. Qed.



(** pygame loads the file, the line that announces it is not printed, and
    nothing else is installed: [check_audio_library] returns [None] and
    leaves pygame in [AUDIO_LIBRARY], with which the alarm loop then plays
    the file.  And on the Windows machine where no call can load the file
    the result is winsound, not [None]. *)
Lemma global_differs_from_result :
  fst (check_audio_library pygame_unannounced startup) = Ok None /\
  AUDIO_LIBRARY (snd (check_audio_library pygame_unannounced startup))
  = Some "pygame"%string /\
  touches_file
    (trace (snd (alarm_iteration pygame_unannounced
                   {| AUDIO_LIBRARY := Some "pygame"%string; trace := [] |}))) = true /\
  unloadable unplayable_on_windows = true /\
  fst (check_audio_library unplayable_on_windows startup) = Ok (Some "winsound"%string).
Proof. repeat split; reflexivity. Qed.

(** C10, as the code has it.  Called with [AUDIO_LIBRARY] equal to [None],
    as at line 283, and as long as no [print] raises,
    [check_audio_library] raises nothing and leaves in [AUDIO_LIBRARY] the
    value it returns: the name of the first of the four libraries that
    passes its check, or [None] when the file is missing or no library
    passes its check. *)
Theorem check_audio_library_sets_global (e : env) (w : world) :
  AUDIO_LIBRARY w = None ->
  quiet e ->
  exists r w',
    check_audio_library e w = (Ok r, w') /\
    AUDIO_LIBRARY w' = r /\
    (r = None \/ exists b, r = Some (backend_name b)) /\
    (path_exists e = false -> r = None) /\
    first_to_pass e r.
Proof.
  intros Hw Hq. destruct (check_audio_library_spec e w Hq) as (added & E & Hok).
  exists (decision e), (selected (decision e) w added). split; [exact E|].
  destruct Hok as (_ & Hname & _ & Hmiss & _).
  split; [|split; [|split]].
  - unfold selected. cbn. rewrite Hw. now destruct (decision e).
  - exact Hname.
  - intros Hp. now destruct (Hmiss Hp).
  - apply decision_first.
Qed.

Lemma check_audio_library_sets_global_witness :
  AUDIO_LIBRARY startup = None /\
  exists r w',
    check_audio_library unplayable_with_playsound startup = (Ok r, w') /\
    AUDIO_LIBRARY w' = r /\
    (r = None \/ exists b, r = Some (backend_name b)) /\
    (path_exists unplayable_with_playsound = false -> r = None) /\
    first_to_pass unplayable_with_playsound r.
Proof.
  split.
  - reflexivity.
  - apply (check_audio_library_sets_global unplayable_with_playsound startup).
    + reflexivity.
    + intros line. reflexivity.
Defined.

(** * More on the frame loop *)

(** ** Counting the alarms *)

Lemma process_face_cases (cfg : config) (ear : Q) (p : process) :
  (Qltb ear (EYE_THRESHOLD cfg) = true /\
   ((NUM_CONSECUTIVE_FRAMES cfg <= S (COUNTER p) /\ ALARM_ON p = false /\
     process_face cfg ear p = start_alarm ear (set_COUNTER (S (COUNTER p)) p)) \/
    ((S (COUNTER p) < NUM_CONSECUTIVE_FRAMES cfg \/ ALARM_ON p = true) /\
     process_face cfg ear p = set_COUNTER (S (COUNTER p)) p))) \/
  (Qltb ear (EYE_THRESHOLD cfg) = false /\
   ((ALARM_ON p = true /\ process_face cfg ear p = set_COUNTER 0 (stop_alarm ear p)) \/
    (ALARM_ON p = false /\ process_face cfg ear p = set_COUNTER 0 p))).
Proof.
  unfold process_face. destruct (Qltb ear (EYE_THRESHOLD cfg)); [left|right]; split; auto.
  - cbn [set_COUNTER COUNTER ALARM_ON]. rewrite Nat.add_1_r.
    destruct (Nat.leb_spec (NUM_CONSECUTIVE_FRAMES cfg) (S (COUNTER p))).
    + destruct (ALARM_ON p) eqn:Ha; cbn [negb]; [right|left]; auto.
    + right. auto.
  - destruct (ALARM_ON p); [left|right]; auto.
Qed.

Lemma low_count_snoc (cfg : config) (ears : list Q) (ear : Q) :
  low_count cfg (ears ++ [ear])
  = low_count cfg ears + (if Qltb ear (EYE_THRESHOLD cfg) then 1 else 0).
Proof.
  unfold low_count. rewrite filter_app, length_app. cbn.
  now destruct (Qltb ear (EYE_THRESHOLD cfg)).
Qed.

Lemma debounce_invariant (cfg : config) (ears : list Q) :
  let p := faces_run cfg ears initial in
  let on := if ALARM_ON p then 1 else 0 in
  on <= length (threads p) /\
  (ALARM_ON p = true -> NUM_CONSECUTIVE_FRAMES cfg <= COUNTER p) /\
  NUM_CONSECUTIVE_FRAMES cfg * (length (threads p) - on) + COUNTER p
  <= low_count cfg ears.
Proof.
  induction ears as [|ear ears IH] using rev_ind.
  - cbn. repeat split; try lia; try discriminate.
  - cbv zeta in *. rewrite faces_run_snoc, low_count_snoc.
    set (p := faces_run cfg ears initial) in *.
    destruct IH as (Hon & Hc & Hsum).
    destruct (process_face_cases cfg ear p)
      as [[Hl [(HN & Ha & ->)|(Hcase & ->)]]|[Hl [(Ha & ->)|(Ha & ->)]]]; rewrite Hl.
    + rewrite Ha in *. cbn [start_alarm set_COUNTER COUNTER ALARM_ON threads].
      rewrite length_app. cbn [length]. repeat split; lia.
    + cbn [set_COUNTER COUNTER ALARM_ON threads].
      destruct (ALARM_ON p) eqn:Ha; repeat split; try discriminate; lia.
    + rewrite Ha in *. specialize (Hc eq_refl).
      cbn [stop_alarm set_COUNTER COUNTER ALARM_ON threads].
      repeat split; try discriminate; try lia. nia.
    + rewrite Ha in *. cbn [set_COUNTER COUNTER ALARM_ON threads].
      rewrite Ha. repeat split; try discriminate; lia.
Qed.

(** ** The threads and the console *)

Lemma history_snoc (cfg : config) (hs : list happening) (h : happening) (p : process) :
  history cfg (hs ++ [h]) p = happen cfg h (history cfg hs p).
Proof. unfold history. now rewrite fold_left_app. Qed.

Lemma finish_length (i : nat) (ts : list thread_status) :
  length (finish i ts) = length ts.
Proof.
  revert i. induction ts as [|t ts IH]; intros [|i]; cbn; auto.
Qed.



Lemma bookkeeping_face (cfg : config) (ear : Q) (p : process) :
  bookkeeping p -> bookkeeping (process_face cfg ear p).
Proof.
  intros (Ht & Hc & Hlast & Hal). unfold bookkeeping.
  destruct (process_face_cases cfg ear p)
    as [[Hl [(HN & Ha & ->)|(Hcase & ->)]]|[Hl [(Ha & ->)|(Ha & ->)]]].
  - rewrite Ha in *.
    cbn [start_alarm set_COUNTER COUNTER ALARM_ON threads console ALARM_THREAD].
    rewrite !filter_app, !length_app. cbn [filter is_alert is_alarm_off length].
    repeat split; try lia.
    + destruct (threads p) as [|t ts]; cbn; [reflexivity|f_equal; lia].
    + intros _. unfold alarm_thread_alive.
      cbn [ALARM_THREAD threads start_alarm set_COUNTER].
      rewrite nth_error_app2 by lia. now rewrite Nat.sub_diag.
  - cbn [set_COUNTER COUNTER ALARM_ON threads console ALARM_THREAD].
    repeat split; auto.
  - rewrite Ha in *.
    cbn [stop_alarm set_COUNTER COUNTER ALARM_ON threads console ALARM_THREAD].
    rewrite !filter_app, !length_app. cbn [filter is_alert is_alarm_off length].
    repeat split; try lia; auto; discriminate.
  - cbn [set_COUNTER COUNTER ALARM_ON threads console ALARM_THREAD].
    repeat split; auto.
Qed.

Lemma bookkeeping_frame (cfg : config) (r : detection) (p : process) :
  bookkeeping p -> bookkeeping (process_frame cfg r p).
Proof.
  rewrite process_frame_faces. unfold faces_run.
  generalize (match r with Some faces => faces | None => [] end). intros ears.
  revert p. induction ears as [|ear ears IH]; intros p H; [exact H|].
  cbn. apply IH. now apply bookkeeping_face.
Qed.

Lemma bookkeeping_check (i : nat) (p : process) :
  bookkeeping p -> bookkeeping (loop_check i p).
Proof.
  intros H. unfold loop_check.
  destruct (ALARM_ON p) eqn:Ha; [exact H|].
  destruct H as (Ht & Hc & Hlast & Hal). rewrite Ha in Hc.
  unfold bookkeeping. cbn [ALARM_ON threads console ALARM_THREAD].
  rewrite finish_length. split; [exact Ht|]. split; [exact Hc|]. split; [|discriminate].
  rewrite Hlast. destruct (threads p) as [|t ts]; destruct i; reflexivity.
Qed.

Lemma bookkeeping_history (cfg : config) (hs : list happening) :
  bookkeeping (history cfg hs initial).
Proof.
  induction hs as [|h hs IH] using rev_ind.
  - cbn. repeat split; auto; discriminate.
  - rewrite history_snoc. destruct h as [r|i]; cbn [happen].
    + now apply bookkeeping_frame.
    + now apply bookkeeping_check.
Qed.


Lemma history_frames (cfg : config) (frames : list detection) (p : process) :
  history cfg (map Frame frames) p = run cfg frames p.
Proof.
  revert p. induction frames as [|r frames IH]; intros p; [reflexivity|].
  cbn. apply IH.
Qed.

(** X2. Every start of the alarm is paid for by [NUM_CONSECUTIVE_FRAMES]
    low ratios of its own: after any frames from the initial state, the
    threads started, times [NUM_CONSECUTIVE_FRAMES], are at most the low
    ratios seen, and so are the alerts printed; with fewer low ratios than
    [NUM_CONSECUTIVE_FRAMES] no thread is started at all. *)
Theorem alarms_need_low_frames (cfg : config) (frames : list detection) :
  let p := run cfg frames initial in
  NUM_CONSECUTIVE_FRAMES cfg * length (threads p) <= low_count cfg (ears_of frames) /\
  NUM_CONSECUTIVE_FRAMES cfg * length (filter is_alert (console p))
  <= low_count cfg (ears_of frames) /\
  (low_count cfg (ears_of frames) < NUM_CONSECUTIVE_FRAMES cfg ->
   threads p = [] /\ ALARM_ON p = false).
Proof.
  cbv zeta.
  assert (Hmain : NUM_CONSECUTIVE_FRAMES cfg * length (threads (run cfg frames initial))
                  <= low_count cfg (ears_of frames)).
  { rewrite run_ears_of.
    destruct (debounce_invariant cfg (ears_of frames)) as (Hon & Hc & Hsum).
    cbv zeta in *. destruct (ALARM_ON (faces_run cfg (ears_of frames) initial)).
    - specialize (Hc eq_refl). nia.
    - nia. }
  split; [exact Hmain|]. split.
  - destruct (bookkeeping_history cfg (map Frame frames)) as (H1 & _).
    rewrite history_frames in H1. now rewrite <- H1.
  - intros Hfew.
    assert (Hnil : threads (run cfg frames initial) = []).
    { destruct (threads (run cfg frames initial)); [reflexivity|]. cbn in Hmain. nia. }
    split; [exact Hnil|].
    destruct (bookkeeping_history cfg (map Frame frames)) as (_ & _ & _ & H4).
    rewrite history_frames in H4.
    destruct (ALARM_ON (run cfg frames initial)); [|reflexivity].
    specialize (H4 eq_refl). unfold alarm_thread_alive in H4.
    destruct (ALARM_THREAD (run cfg frames initial)) as [i|]; [|discriminate].
    rewrite Hnil in H4. destruct i; discriminate.
Qed.

(** ** A ratio at or above the threshold starts the count again *)

Lemma faces_run_cons (cfg : config) (ear : Q) (ears : list Q) (p : process) :
  faces_run cfg (ear :: ears) p = faces_run cfg ears (process_face cfg ear p).
Proof. reflexivity. Qed.

(** Low ratios from a state where the flag follows the counter. *)
Lemma low_ratios_from (cfg : config) (lows : list Q) (p : process) :
  Forall (below cfg) lows ->
  ALARM_ON p = (NUM_CONSECUTIVE_FRAMES cfg <=? COUNTER p) ->
  let q := faces_run cfg lows p in
  COUNTER q = COUNTER p + length lows /\
  ALARM_ON q = (NUM_CONSECUTIVE_FRAMES cfg <=? COUNTER p + length lows) /\
  length (threads q)
  = length (threads p)
    + (if negb (ALARM_ON p) && (NUM_CONSECUTIVE_FRAMES cfg <=? COUNTER p + length lows)
       then 1 else 0).
Proof.
  revert p. induction lows as [|ear lows IH]; intros p Hall Hinv; cbv zeta.
  - cbn. rewrite !Nat.add_0_r, <- Hinv. repeat split; auto.
    destruct (ALARM_ON p); cbn; lia.
  - inversion Hall as [|? ? Hb Hrest]; subst. rewrite faces_run_cons.
    apply Qltb_lt in Hb.
    destruct (process_face_cases cfg ear p)
      as [[Hl [(HN & Ha & E)|(Hcase & E)]]|[Hl _]]; [| |congruence].
    + destruct (IH (process_face cfg ear p) Hrest) as (Hc & Hon & Ht).
      { rewrite E. cbn. symmetry. apply Nat.leb_le. exact HN. }
      rewrite Hc, Hon, Ht, E, Ha.
      cbn [start_alarm set_COUNTER COUNTER ALARM_ON threads length negb andb].
      rewrite length_app. cbn [length].
      assert (Hle : (NUM_CONSECUTIVE_FRAMES cfg <=? COUNTER p + S (length lows)) = true)
        by (apply Nat.leb_le; lia).
      rewrite Hle. replace (S (COUNTER p) + length lows) with (COUNTER p + S (length lows))
        by lia.
      rewrite Hle. repeat split; lia.
    + destruct (IH (process_face cfg ear p) Hrest) as (Hc & Hon & Ht).
      { rewrite E. cbn [set_COUNTER COUNTER ALARM_ON]. rewrite Hinv.
        destruct Hcase as [Hlt|Ha].
        - transitivity false; [apply Nat.leb_gt; lia|symmetry; apply Nat.leb_gt; lia].
        - rewrite Hinv in Ha. rewrite Ha.
          symmetry. apply Nat.leb_le. apply Nat.leb_le in Ha. lia. }
      rewrite Hc, Hon, Ht, E. cbn [set_COUNTER COUNTER ALARM_ON threads].
      replace (S (COUNTER p) + length lows) with (COUNTER p + S (length lows)) by lia.
      repeat split; auto.
Qed.

(** X3. A single ratio at or above the threshold undoes what was counted,
    whatever the state: after it, [k] low ratios leave the counter at [k],
    the alarm on exactly when [k] reaches [NUM_CONSECUTIVE_FRAMES], and
    one thread more exactly then. *)
Theorem normal_ratio_rearms (cfg : config) (p : process) (ear : Q) (lows : list Q) :
  0 < NUM_CONSECUTIVE_FRAMES cfg ->
  (EYE_THRESHOLD cfg <= ear)%Q ->
  Forall (below cfg) lows ->
  let q := faces_run cfg (ear :: lows) p in
  COUNTER q = length lows /\
  ALARM_ON q = (NUM_CONSECUTIVE_FRAMES cfg <=? length lows) /\
  length (threads q)
  = length (threads p) + (if NUM_CONSECUTIVE_FRAMES cfg <=? length lows then 1 else 0).
Proof.
  intros HN Hge Hall. cbv zeta. rewrite faces_run_cons.
  destruct (process_face_normal cfg ear p Hge) as (Hc & Ha & Ht & _).
  destruct (low_ratios_from cfg lows (process_face cfg ear p) Hall) as (Hc' & Ha' & Ht').
  { rewrite Hc, Ha. symmetry. apply Nat.leb_gt. exact HN. }
  rewrite Hc', Ha', Ht', Hc, Ha, Ht. cbn [negb andb Nat.add]. auto.
Qed.

Lemma normal_ratio_rearms_witness :
  0 < NUM_CONSECUTIVE_FRAMES scenario_config /\
  (let q := faces_run scenario_config (0.7 :: [0.5; 0.5; 0.5; 0.5; 0.5; 0.5])%Q
              (faces_run scenario_config [0.5; 0.5; 0.5]%Q initial) in
   COUNTER q = 6 /\ ALARM_ON q = true /\ length (threads q) = 1).
Proof.
  split.
  - cbn. lia.
  - apply (normal_ratio_rearms scenario_config
             (faces_run scenario_config [0.5; 0.5; 0.5]%Q initial)
             0.7%Q [0.5; 0.5; 0.5; 0.5; 0.5; 0.5]%Q).
    + cbn. lia.
    + unfold Qle. cbn. lia.
    + repeat constructor.
Defined.

(** ** Alarms that overlap *)





(** ** Leaving the loop *)

(** Only the low byte of the key code counts. *)
Lemma quit_key_mod (k : Z) : quit_key k = (k mod 256 =? 113)%Z.
Proof.
  unfold quit_key. change 255%Z with (Z.ones 8).
  rewrite Z.land_ones by lia. reflexivity.
Qed.

Lemma run_cons (cfg : config) (r : detection) (frames : list detection) (p : process) :
  run cfg (r :: frames) p = run cfg frames (process_frame cfg r p).
Proof. reflexivity. Qed.

(** X5. The loop of line 312 processes the frames of the turns up to the
    first turn that has a frame and a key code equal to 113, the code of
    [q], modulo 256; the frame of that turn is processed before the loop is
    left, a turn without a frame never leaves the loop, whatever its key,
    and nothing after the turn that leaves the loop is looked at. *)
Theorem main_loop_until_quit (cfg : config) (turns : list turn) (p : process) :
  main_loop cfg turns p
  = (run cfg (frames_of (until_quit turns)) p, existsb quits turns) /\
  (forall (before after : list turn) (t : turn),
     forallb (fun u => negb (quits u)) before = true -> quits t = true ->
     main_loop cfg (before ++ t :: after) p
     = (run cfg (frames_of (before ++ [t])) p, true)).
Proof.
  assert (Hmain : forall ts q,
             main_loop cfg ts q
             = (run cfg (frames_of (until_quit ts)) q, existsb quits ts)).
  { induction ts as [|t ts IH]; intros q; [reflexivity|].
    cbn [main_loop until_quit existsb]. unfold quits at 1.
    destruct (frame_read t) as [r|] eqn:Hr.
    - rewrite quit_key_mod. destruct (key t mod 256 =? 113)%Z.
      + cbn [frames_of]. rewrite Hr. reflexivity.
      + cbn [frames_of orb]. rewrite Hr, run_cons. apply IH.
    - cbn [frames_of orb]. rewrite Hr. apply IH. }
  split; [apply Hmain|].
  intros before after t Hb Ht. rewrite Hmain. f_equal.
  - f_equal. f_equal. induction before as [|u before IH]; cbn [app until_quit].
    + unfold quits in Ht. destruct (frame_read t); [|discriminate]. now rewrite Ht.
    + cbn in Hb. apply andb_true_iff in Hb as [Hu Hb]. rewrite (IH Hb).
      unfold quits in Hu. destruct (frame_read u); [|reflexivity].
      apply negb_true_iff in Hu. now rewrite Hu.
  - rewrite existsb_app. cbn. rewrite Ht. now rewrite orb_true_r.
Qed.

(** ** The shutdown *)




Lemma loop_checks_length (polls : list nat) (p : process) :
  length (threads (loop_checks polls p)) = length (threads p).
Proof.
  revert p. induction polls as [|i polls IH]; intros p; [reflexivity|].
  cbn [loop_checks fold_left]. fold (loop_checks polls (loop_check i p)).
  rewrite IH. unfold loop_check. destruct (ALARM_ON p); [reflexivity|].
  cbn. apply finish_length.
Qed.



(** * More on the alarm *)

(** X7. The shutdown of lines 404-423 swallows whatever pygame raises, but
    not what its two prints and the three releases raise: it ends with the
    exception of the first of the print of line 405,
    [cv2.destroyAllWindows], [vs.stop], [face_mesh.close] and the print of
    line 423 that raises, and what comes after that one is not done.  Once
    the first line is printed, [pygame.mixer.quit] is called exactly when
    [AUDIO_LIBRARY] is pygame and the import succeeds, and the half second
    of line 410 is slept exactly when the last alarm thread is alive. *)
Theorem cleanup_releases (s : shutdown_env) (p : process) (w : world) :
  exists r added,
    cleanup s p w = (r, extend w added) /\
    (r = cleanup_result s /\
     called "pygame.mixer.quit" added
     = shutdown_begins s && library_is (AUDIO_LIBRARY w) "pygame"
       && is_none (import_pygame s) /\
     called "vs.stop" added = shutdown_begins s && is_none (cv2_destroyAllWindows s) /\
     called "face_mesh.close" added
     = shutdown_begins s && is_none (cv2_destroyAllWindows s) && is_none (vs_stop s) /\
     sleep_total added = if shutdown_begins s && alarm_thread_alive p then 500 else 0).
Proof.
  unfold cleanup, cleanup_result, shutdown_begins. unfold_monad. unfold emit. cbn.
  repeat split_head.
  all: finish_run; repeat split; reflexivity.
Qed.

(** ** Which library is selected *)

(** X8. What [check_audio_library] returns or raises, and what it leaves
    in [AUDIO_LIBRARY], is settled by the outcomes of its calls and of its
    prints, as [verdict] has it.  Whenever it returns a name,
    [AUDIO_LIBRARY] is that name.  When no [print] raises it raises
    nothing and returns none when the file is missing; else pygame when
    it imports, initialises its mixer and loads the file; else playsound
    when it imports; else pydub when its two imports succeed and it loads
    the file; else winsound when it and [platform] import, the system is
    Windows and the lowered file name ends in [.wav]; else none; and
    [AUDIO_LIBRARY] keeps the value it had when it returns none. *)
Theorem check_audio_library_decides (e : env) (w : world) :
  exists added,
    check_audio_library e w
    = (fst (verdict e (AUDIO_LIBRARY w)),
       {| AUDIO_LIBRARY := snd (verdict e (AUDIO_LIBRARY w));
          trace := trace w ++ added |}) /\
    (forall name : string,
       fst (verdict e (AUDIO_LIBRARY w)) = Ok (Some name) ->
       snd (verdict e (AUDIO_LIBRARY w)) = Some name) /\
    (quiet e ->
     verdict e (AUDIO_LIBRARY w)
     = (Ok (decision e),
        match decision e with
        | Some name => Some name
        | None => AUDIO_LIBRARY w
        end)).
Proof.
  destruct (check_audio_library_runs e w) as (added & E & _).
  exists added. split; [exact E|]. split.
  - intros name. apply verdict_name.
  - apply quiet_verdict.
Qed.

(** ** What playing the file comes to *)

(** X9. [play_audio_file] returns [True] exactly when [AUDIO_LIBRARY] is one
    of the four names it knows and none of its calls has raised.  After a
    call has raised it prints its line and returns [False], unless that
    [print] raises: then, and only then, it raises.  It comes to a call
    on the file exactly when the imports, and for pygame the test and the
    start of the mixer, raise nothing.  With any other value of
    [AUDIO_LIBRARY], [None] included, it returns [False] at once: no call,
    no sleep, nothing printed. *)
Theorem play_audio_file_result (e : env) (w : world) :
  exists r added,
    play_audio_file e w = (r, extend w added) /\
    (r = play_result e (AUDIO_LIBRARY w) added /\
     print_failed added = is_raise r /\
     uses added = plays e (AUDIO_LIBRARY w) /\
     (known_library (AUDIO_LIBRARY w) = false -> r = Ok false /\ added = [])).
Proof.
  destruct (play_audio_file_spec e w)
    as (r & added & E & Hr & _ & Hu & Hp & Hn & _).
  exists r, added. split; [exact E|]. split; [exact Hr|]. split; [exact Hp|].
  split; [exact Hu|]. intros Hk. specialize (Hn Hk). split; [|exact Hn].
  rewrite Hr, Hn. unfold play_result. now rewrite Hk.
Qed.

(** ** How long a turn of the alarm loop sleeps *)

(** X10. One turn of the alarm loop never asks [time.sleep] for more than a
    second at a time, and for no more than a second and a half in all
    besides the tenths of a second of the wait of pygame, one per test of
    [get_busy] at most.  While every read of [ALARM_ON] gives [True], a
    turn that is not left by an exception sleeps three tenths of a second
    at least: the loop does not spin. *)
Theorem alarm_iteration_sleeps (e : env) (w : world) :
  exists r added,
    alarm_iteration e w = (r, extend w added) /\
    short_sleeps added = true /\
    sleep_total added <= 100 * length (pygame_mixer_get_busy e) + 1500 /\
    (alarm_stays_on e -> is_raise r = false -> 300 <= sleep_total added).
Proof.
  destruct (alarm_iteration_spec e w)
    as (added & E & _ & _ & _ & _ & Hshort & Htotal & _ & Hlow).
  exists (turn_outcome e w), added. auto.
Qed.

(** ** When the file plays, and when the loop is left *)

(** X11. When [AUDIO_LIBRARY] is set and [play_audio_file] returns [True], the
    turn of the loop is that playback and the half second of line 173: no
    fallback mechanism is used, whatever they would have done. *)
Theorem played_file_ends_the_turn (e : env) (w : world) (added : list event) :
  truthy (AUDIO_LIBRARY w) = true ->
  play_audio_file e w = (Ok true, extend w added) ->
  alarm_iteration e w = (Ok (Return tt), extend w (added ++ [Sleep 500])) /\
  (forall m, used m (added ++ [Sleep 500]) -> m = AudioFile).
Proof.
  intros Ht Hplay. split.
  - unfold alarm_iteration.
    assert (Hfile : file_stage e w = (Ok (Return tt), extend w (added ++ [Sleep 500]))).
    { unfold file_stage. unfold bind at 1. unfold get_AUDIO_LIBRARY. rewrite Ht.
      unfold bind at 1. rewrite Hplay. unfold_monad. cbn. unfold extend. cbn.
      now rewrite <- app_assoc. }
    now rewrite (then_return _ _ _ _ _ Hfile).
  - destruct (play_audio_file_spec e w) as (b & a & E & _ & Honly & _).
    rewrite Hplay in E. injection E as _ Htr. apply app_inv_head in Htr. subst a.
    intros m Hused. unfold used in Hused. rewrite mechanisms_app in Hused.
    cbn [mechanisms pick mechanism_of map] in Hused. rewrite app_nil_r in Hused.
    pose proof (all_are_in _ _ _ Honly Hused) as Hr. destruct m; cbn in Hr; congruence.
Qed.

Lemma played_file_ends_the_turn_witness :
  truthy (AUDIO_LIBRARY playsound_world) = true /\
  alarm_iteration playsound_works playsound_world
  = (Ok (Return tt), extend playsound_world (playsound_played ++ [Sleep 500])) /\
  (forall m, used m (playsound_played ++ [Sleep 500]) -> m = AudioFile).
Proof.
  split.
  - reflexivity.
  - apply (played_file_ends_the_turn playsound_works playsound_world playsound_played);
      reflexivity.
Defined.



(** * More on the eye aspect ratio *)

Section EyesFacts.

Local Open Scope R_scope.

(** ** Indices out of range *)

Lemma extract_coords_none (landmarks : list landmark) (eye_points : list nat) :
  extract_coords landmarks eye_points = None <->
  exists point, In point eye_points /\ (length landmarks <= point)%nat.
Proof.
  induction eye_points as [|point rest IH]; cbn.
  - split; [discriminate|]. intros (pt & [] & _).
  - destruct (nth_error landmarks point) as [l|] eqn:Hl.
    + destruct (extract_coords landmarks rest) as [coords|].
      * split; [discriminate|]. intros (pt & [<-|Hin] & Hle).
        -- apply nth_error_None in Hle. congruence.
        -- assert (Hex : exists q, In q rest /\ (length landmarks <= q)%nat)
             by (now exists pt).
           apply IH in Hex. discriminate.
      * split; [|reflexivity]. intros _.
        destruct (proj1 IH eq_refl) as (pt & Hin & Hle). exists pt. auto.
    + split; [|reflexivity]. intros _. exists point. split; [now left|].
      now apply nth_error_None.
Qed.

Lemma extract_coords_length (landmarks : list landmark) (eye_points : list nat)
  (coords : list (R * R)) :
  extract_coords landmarks eye_points = Some coords ->
  length coords = length eye_points.
Proof.
  revert coords. induction eye_points as [|point rest IH]; cbn; intros coords H.
  - now injection H as <-.
  - destruct (nth_error landmarks point); [|discriminate].
    destruct (extract_coords landmarks rest) as [cs|]; [|discriminate].
    injection H as <-. cbn. f_equal. now apply IH.
Qed.

Lemma six_rows (coords : list (R * R)) :
  (match nth_error coords 1, nth_error coords 5, nth_error coords 2,
         nth_error coords 4, nth_error coords 0, nth_error coords 3 with
   | Some _, Some _, Some _, Some _, Some _, Some _ => true
   | _, _, _, _, _, _ => false
   end) = (6 <=? length coords)%nat.
Proof.
  destruct coords as [|c0 [|c1 [|c2 [|c3 [|c4 [|c5 rest]]]]]]; reflexivity.
Qed.

Lemma calculate_eye_ratio_none (landmarks : list landmark) (eye_points : list nat) :
  calculate_eye_ratio landmarks eye_points = None <->
  (length eye_points < 6)%nat \/
  exists point, In point eye_points /\ (length landmarks <= point)%nat.
Proof.
  unfold calculate_eye_ratio.
  destruct (extract_coords landmarks eye_points) as [coords|] eqn:Hc.
  - pose proof (extract_coords_length _ _ _ Hc) as Hlen.
    pose proof (six_rows coords) as Hsix. rewrite Hlen in Hsix.
    assert (Hnone : ~ exists point, In point eye_points /\ (length landmarks <= point)%nat).
    { intros H. apply extract_coords_none in H. congruence. }
    destruct (nth_error coords 1), (nth_error coords 5), (nth_error coords 2),
      (nth_error coords 4), (nth_error coords 0), (nth_error coords 3);
      symmetry in Hsix;
      try (apply Nat.leb_le in Hsix; split; [discriminate|];
           intros [H|H]; [lia|contradiction]);
      apply Nat.leb_gt in Hsix; split; auto.
  - split; [|reflexivity]. intros _. right. now apply extract_coords_none.
Qed.

(** X13. [calculate_eye_ratio] raises [IndexError] exactly when it is given
    fewer than six eye points or an eye point that is no index of the
    landmarks, be it one beyond the sixth, which the ratio does not use;
    what it returns otherwise is not negative. *)
Theorem calculate_eye_ratio_index_error (landmarks : list landmark)
  (eye_points : list nat) :
  (calculate_eye_ratio landmarks eye_points = None <->
   (length eye_points < 6)%nat \/
   exists point, In point eye_points /\ (length landmarks <= point)%nat) /\
  (forall ear, calculate_eye_ratio landmarks eye_points = Some ear -> 0 <= ear).
Proof.
  split.
  - apply calculate_eye_ratio_none.
  - apply calculate_eye_ratio_nonneg.
Qed.

(** ** Units and origin *)

Lemma extract_coords_rescale (k dx dy : R) (landmarks : list landmark)
  (eye_points : list nat) :
  extract_coords (map (rescale k dx dy) landmarks) eye_points
  = option_map (map (rescale_row k dx dy)) (extract_coords landmarks eye_points).
Proof.
  induction eye_points as [|point rest IH]; [reflexivity|].
  cbn [extract_coords]. rewrite nth_error_map.
  destruct (nth_error landmarks point) as [l|]; [|reflexivity].
  cbn [option_map]. rewrite IH.
  destruct (extract_coords landmarks rest); reflexivity.
Qed.

Lemma euclidean_rescale (k dx dy : R) (u v : R * R) :
  0 <= k ->
  euclidean (rescale_row k dx dy u) (rescale_row k dx dy v) = k * euclidean u v.
Proof.
  intros Hk. unfold euclidean, rescale_row. cbn [fst snd].
  replace ((k * fst u + dx - (k * fst v + dx)) * (k * fst u + dx - (k * fst v + dx))
           + (k * snd u + dy - (k * snd v + dy)) * (k * snd u + dy - (k * snd v + dy)))
    with ((k * k) * ((fst u - fst v) * (fst u - fst v)
                     + (snd u - snd v) * (snd u - snd v))) by ring.
  rewrite sqrt_mult_alt by nra. now rewrite sqrt_square.
Qed.

(** X14. The ratio does not depend on the unit nor on the origin of the
    coordinates: multiplying every [x] and [y] by the same positive factor
    and shifting them leaves what [calculate_eye_ratio] returns, or raises,
    as it is. *)
Theorem calculate_eye_ratio_rescaled (k dx dy : R) (landmarks : list landmark)
  (eye_points : list nat) :
  0 < k ->
  calculate_eye_ratio (map (rescale k dx dy) landmarks) eye_points
  = calculate_eye_ratio landmarks eye_points.
Proof.
  intros Hk. unfold calculate_eye_ratio. rewrite extract_coords_rescale.
  destruct (extract_coords landmarks eye_points) as [coords|]; [|reflexivity].
  cbn [option_map]. rewrite !nth_error_map.
  destruct (nth_error coords 1) as [c1|]; [|reflexivity].
  destruct (nth_error coords 5) as [c5|]; [|reflexivity].
  destruct (nth_error coords 2) as [c2|]; [|reflexivity].
  destruct (nth_error coords 4) as [c4|]; [|reflexivity].
  destruct (nth_error coords 0) as [c0|]; [|reflexivity].
  destruct (nth_error coords 3) as [c3|]; [|reflexivity].
  cbn [option_map]. rewrite !euclidean_rescale by lra. f_equal.
  pose proof (euclidean_nonneg c0 c3) as HC.
  destruct (Rlt_dec 0 (k * euclidean c0 c3)) as [H1|H1];
    destruct (Rlt_dec 0 (euclidean c0 c3)) as [H2|H2]; try reflexivity.
  - field. lra.
  - exfalso. apply H2. nra.
  - exfalso. apply H1. nra.
Qed.

Lemma calculate_eye_ratio_rescaled_witness :
  0 < 800 /\
  calculate_eye_ratio
    (map (rescale 800 10 20) (six_points (0, 0) (3, 4) (12, 0) (3, -4) (9, 4) (9, -4)))
    in_order
  = calculate_eye_ratio (six_points (0, 0) (3, 4) (12, 0) (3, -4) (9, 4) (9, -4)) in_order.
Proof.
  split.
  - lra.
  - apply (calculate_eye_ratio_rescaled 800 10 20). lra.
Defined.

(** ** A ratio of zero *)

Lemma euclidean_zero (u v : R * R) : euclidean u v = 0 <-> u = v.
Proof.
  unfold euclidean. split.
  - intros H. apply sqrt_eq_0 in H;
      [|pose proof (Rle_0_sqr (fst u - fst v)); pose proof (Rle_0_sqr (snd u - snd v));
        unfold Rsqr in *; lra].
    destruct u as [a b], v as [c d]. cbn [fst snd] in H.
    destruct (Rplus_sqr_eq_0 (a - c) (b - d)) as [Hx Hy]; [unfold Rsqr; exact H|].
    f_equal; lra.
  - intros ->. replace ((fst v - fst v) * (fst v - fst v)
                        + (snd v - snd v) * (snd v - snd v)) with 0 by ring.
    apply sqrt_0.
Qed.

(** X15. In exact arithmetic, over the reals, the ratio of six points is 0
    in two cases only: when the points 0 and 3, whose distance divides, are
    the same, or when the points 1 and 5 are the same and the points 2 and
    4 are.  (In floating point a distance can vanish or overflow between
    points that differ.) *)
Theorem calculate_eye_ratio_zero (p0 p1 p2 p3 p4 p5 : R * R) :
  calculate_eye_ratio (six_points p0 p1 p2 p3 p4 p5) in_order = Some 0 <->
  p0 = p3 \/ (p1 = p5 /\ p2 = p4).
Proof.
  rewrite calculate_eye_ratio_six.
  pose proof (euclidean_nonneg p0 p3) as HC. pose proof (euclidean_nonneg p1 p5) as HA.
  pose proof (euclidean_nonneg p2 p4) as HB.
  rewrite <- (euclidean_zero p0 p3), <- (euclidean_zero p1 p5), <- (euclidean_zero p2 p4).
  destruct (Rlt_dec 0 (euclidean p0 p3)) as [Hpos|Hnot].
  - split.
    + intros H. injection H as H. right.
      assert (Hsum : euclidean p1 p5 + euclidean p2 p4 = 0).
      { apply Rmult_eq_reg_r with (/ (2 * euclidean p0 p3)).
        - rewrite Rmult_0_l. exact H.
        - apply Rinv_neq_0_compat. lra. }
      split; lra.
    + intros [H|[H1 H2]]; [lra|]. f_equal. rewrite H1, H2.
      unfold Rdiv. now rewrite Rplus_0_l, Rmult_0_l.
  - split; [|reflexivity]. intros _. left. lra.
Qed.

(** ** The ratio of a face *)

Lemma in_range (landmarks : list landmark) (points : list nat) (n : nat) :
  Forall (fun pt => (pt <= n)%nat) points -> In n points ->
  (exists point, In point points /\ (length landmarks <= point)%nat) <->
  (length landmarks <= n)%nat.
Proof.
  intros Hall Hin. split.
  - intros (pt & Hpt & Hle). rewrite Forall_forall in Hall. specialize (Hall pt Hpt). lia.
  - intros Hle. now exists n.
Qed.

(** X16. The ratio of a face, the mean of lines 326-330, needs the landmarks
    up to the index 386: with fewer than 387 landmarks it raises
    [IndexError], and with 387 or more it is a number between the ratios of
    the two eyes, so not a negative one. *)
Theorem face_ear_defined (landmarks : list landmark) :
  (face_ear landmarks = None <-> (length landmarks <= 386)%nat) /\
  (forall ear, face_ear landmarks = Some ear ->
     exists left_ear right_ear,
       calculate_eye_ratio landmarks LEFT_EYE_EAR_POINTS = Some left_ear /\
       calculate_eye_ratio landmarks RIGHT_EYE_EAR_POINTS = Some right_ear /\
       Rmin left_ear right_ear <= ear <= Rmax left_ear right_ear /\
       0 <= ear).
Proof.
  assert (HL : calculate_eye_ratio landmarks LEFT_EYE_EAR_POINTS = None <->
               (length landmarks <= 159)%nat).
  { rewrite calculate_eye_ratio_none.
    rewrite (in_range landmarks LEFT_EYE_EAR_POINTS 159);
      [|repeat constructor; lia|cbn; auto].
    cbn. lia. }
  assert (HR : calculate_eye_ratio landmarks RIGHT_EYE_EAR_POINTS = None <->
               (length landmarks <= 386)%nat).
  { rewrite calculate_eye_ratio_none.
    rewrite (in_range landmarks RIGHT_EYE_EAR_POINTS 386);
      [|repeat constructor; lia|cbn; auto 10].
    cbn. lia. }
  unfold face_ear. split.
  - destruct (calculate_eye_ratio landmarks LEFT_EYE_EAR_POINTS) as [l|] eqn:El.
    + destruct (calculate_eye_ratio landmarks RIGHT_EYE_EAR_POINTS) as [r|] eqn:Er.
      * split; [discriminate|]. intros H. apply HR in H. discriminate.
      * split; [intros _; now apply HR|reflexivity].
    + split; [|reflexivity]. intros _. assert (length landmarks <= 159)%nat by now apply HL.
      lia.
  - intros ear H.
    destruct (calculate_eye_ratio landmarks LEFT_EYE_EAR_POINTS) as [l|] eqn:El;
      [|discriminate].
    destruct (calculate_eye_ratio landmarks RIGHT_EYE_EAR_POINTS) as [r|] eqn:Er;
      [|discriminate].
    injection H as <-. exists l, r. split; [reflexivity|]. split; [reflexivity|].
    pose proof (calculate_eye_ratio_nonneg _ _ _ El).
    pose proof (calculate_eye_ratio_nonneg _ _ _ Er).
    unfold Rmin, Rmax. destruct (Rle_dec l r); repeat split; lra.
Qed.

(** ** The pixels of the contours *)

Lemma int_bounds (r : R) (n : Z) : 0 <= r <= IZR n -> (0 <= int_ r <= n)%Z.
Proof.
  intros [H0 Hn]. unfold int_. destruct (Rle_dec 0 r) as [_|H]; [|contradiction].
  destruct (base_Int_part r) as [Hle Hgt]. split.
  - assert (Hlt : IZR (-1) < IZR (Int_part r)) by (simpl; lra).
    apply lt_IZR in Hlt. lia.
  - apply le_IZR. lra.
Qed.

Lemma int_IZR (n : Z) : (0 <= n)%Z -> int_ (IZR n) = n.
Proof.
  intros Hn. unfold int_. apply IZR_le in Hn.
  destruct (Rle_dec 0 (IZR n)) as [_|H]; [|contradiction].
  symmetry. apply Int_part_spec. lra.
Qed.

(** X17. [extract_eye_coordinates] raises [IndexError] when one of the
    indices is not below the number of landmarks, and only then; otherwise
    it returns one pixel for each index. *)
Theorem extract_eye_coordinates_index_error (frame_shape : Z * Z)
  (landmarks : list landmark) (eye_landmarks : list nat) :
  (extract_eye_coordinates frame_shape landmarks eye_landmarks = None <->
   exists point, In point eye_landmarks /\ (length landmarks <= point)%nat) /\
  (forall coords,
     extract_eye_coordinates frame_shape landmarks eye_landmarks = Some coords ->
     length coords = length eye_landmarks).
Proof.
  induction eye_landmarks as [|point rest [IHn IHs]].
  - split.
    + split; [discriminate|]. now intros (pt & [] & _).
    + intros coords H. now injection H as <-.
  - cbn [extract_eye_coordinates]. split.
    + destruct (nth_error landmarks point) as [l|] eqn:El.
      * assert (Hlt : (point < length landmarks)%nat)
          by (apply nth_error_Some; congruence).
        destruct (extract_eye_coordinates frame_shape landmarks rest) as [coords|].
        -- split; [discriminate|]. intros (pt & [<-|Hin] & Hle); [lia|].
           assert (Hex : exists q, In q rest /\ (length landmarks <= q)%nat) by now exists pt.
           apply IHn in Hex. discriminate.
        -- split; [|reflexivity]. intros _.
           destruct (proj1 IHn eq_refl) as (pt & Hin & Hle).
           exists pt. split; [now right|exact Hle].
      * split; [|reflexivity]. intros _. exists point. split; [now left|].
        now apply nth_error_None.
    + intros coords H.
      destruct (nth_error landmarks point) as [l|]; [|discriminate].
      destruct (extract_eye_coordinates frame_shape landmarks rest) as [cs|];
        [|discriminate].
      injection H as <-. cbn [length]. f_equal. now apply IHs.
Qed.

(** X18. The pixels of landmarks that are inside the frame, with both
    coordinates from 0 to 1, are not outside of it: each [x] is from 0 to
    the width and each [y] from 0 to the height. *)
Theorem extract_eye_coordinates_in_frame (frame_shape : Z * Z)
  (landmarks : list landmark) (eye_landmarks : list nat) (coords : list (Z * Z)) :
  (0 <= fst frame_shape)%Z -> (0 <= snd frame_shape)%Z ->
  Forall normalized landmarks ->
  extract_eye_coordinates frame_shape landmarks eye_landmarks = Some coords ->
  Forall (in_frame frame_shape) coords.
Proof.
  intros Hh Hw Hall. apply IZR_le in Hh, Hw.
  revert coords. induction eye_landmarks as [|point rest IH]; intros coords H.
  - injection H as <-. constructor.
  - cbn [extract_eye_coordinates] in H.
    destruct (nth_error landmarks point) as [l|] eqn:El; [|discriminate].
    destruct (extract_eye_coordinates frame_shape landmarks rest) as [cs|];
      [|discriminate].
    injection H as <-. constructor; [|now apply IH].
    apply nth_error_In in El. rewrite Forall_forall in Hall.
    destruct (Hall l El) as [Hx Hy]. unfold in_frame. cbn [fst snd].
    split; apply int_bounds; nra.
Qed.

Lemma extract_eye_coordinates_in_frame_witness :
  Forall (in_frame (450, 800)%Z) [(400, 225); (0, 450)]%Z.
Proof.
  apply (extract_eye_coordinates_in_frame (450, 800)%Z corner_and_centre [1; 0]%nat).
  - cbn. lia.
  - cbn. lia.
  - repeat constructor; cbn; lra.
  - cbn [extract_eye_coordinates corner_and_centre nth_error x y fst snd].
    replace (1 / 2 * 800) with (IZR 400) by lra.
    replace (1 / 2 * 450) with (IZR 225) by lra.
    replace (0 * 800) with (IZR 0) by lra.
    replace (1 * 450) with (IZR 450) by lra.
    now rewrite !int_IZR.
Defined.

End EyesFacts.
